(** * Transaction attempts of the Firestore client (src/dev/src/transaction.js)

    A shallow embedding of the [Transaction] class.  A transaction attempt is
    a JavaScript object: it lives in a store of objects and is named by its
    address, so that the back-reference [_previousTransaction] of a retried
    attempt aliases the failed attempt instead of copying it.  Methods are
    computations in a state-and-exception monad over that store; the calls
    that leave the class (document group, query, transport, write-batch
    commit) are recorded, in order, in the store's [trace].

    Promises are modelled by their settlement ([Resolved] or [Rejected]); a
    [then] callback runs at the point where the promise is obtained. *)

From stdpp Require Import gmap strings list.

Set Warnings "-register-all".

Local Open Scope string_scope.
Local Open Scope list_scope.

(** ** Values that cross the class boundary *)

Definition TransactionId := string.

(** JavaScript values handed to the methods.  [is.instance(v, DocumentReference)]
    holds exactly of [VDocumentReference], [is.instance(v, Query)] exactly of
    [VQuery], and [is.array] exactly of [VArray]. *)
Inductive Value : Type :=
| VUndefined
| VDocumentReference (path : string)
| VQuery (q : string)
| VArray (elems : list Value)
| VDocumentSnapshot (ref : string) (data : option string)
| VQuerySnapshot (q : string) (docs : list string)
| VObject (repr : string).

Definition is_DocumentReference (v : Value) : bool :=
  match v with VDocumentReference _ => true | _ => false end.

Definition is_Query (v : Value) : bool :=
  match v with VQuery _ => true | _ => false end.

(** What a JavaScript [throw] or a rejected promise carries.  [Error] is
    [new Error(message)] as thrown by transaction.js itself; the two
    validator constructors are the failures of [firestore._validator]; the
    last one is a failure reported by the transport. *)
Inductive JsError : Type :=
| Error (message : string)
| InvalidDocumentReference (index : nat)
| TooFewArguments (funcName : string) (minSize : nat)
| TransportFailure (code : nat).

Inductive Promise (A : Type) : Type :=
| Resolved (a : A)
| Rejected (e : JsError).
Arguments Resolved {A} a.
Arguments Rejected {A} e.

(** [p.then(f)] for a callback without effects. *)
Definition then_ {A B : Type} (p : Promise A) (f : A → B) : Promise B :=
  match p with
  | Resolved a => Resolved (f a)
  | Rejected e => Rejected e
  end.

(** The error classes of the error taxonomy. *)
Inductive ErrorKind : Type :=
| SequencingError
| ArgumentError
| TransportError.

(** ** transaction.js, module constants *)

Definition READ_AFTER_WRITE_ERROR_MSG : string :=
  "Firestore transactions require all reads to be executed before all writes.".

Definition ALLOW_RETRIES : bool := true.

Definition dquote : string := String (Ascii.ascii_of_nat 34) EmptyString.

Definition REF_OR_QUERY_ERROR_MSG : string :=
  "Argument " +:+ dquote +:+ "refOrQuery" +:+ dquote
  +:+ " must be a DocumentRef or a Query.".

(** The taxonomy applied to the errors the class can raise: the
    read-after-write message is the sequencing error, every other error
    raised locally reports a malformed argument. *)
Definition errorKind (e : JsError) : ErrorKind :=
  match e with
  | Error m => if decide (m = READ_AFTER_WRITE_ERROR_MSG)
               then SequencingError else ArgumentError
  | InvalidDocumentReference _ => ArgumentError
  | TooFewArguments _ _ => ArgumentError
  | TransportFailure _ => TransportError
  end.

(** ** The write batch *)

(** One buffered mutation, with the arguments it was issued with. *)
Inductive WriteOp : Type :=
| OpCreate (documentRef data : Value)
| OpSet (documentRef data options : Value)
| OpUpdate (args : list Value)
| OpDelete (documentRef precondition : Value).

Record WriteBatch : Type := mkWriteBatch { _writes : list WriteOp }.

(** The WriteBatch class (write-batch.js) is not part of the sources; the
    attempt uses its [isEmpty] property, its four buffering methods and
    [commit_] (further down, with the other outgoing calls). *)
Module WriteBatchModel.

(** Modelled from the spec: the batch that [new WriteBatch] yields, an
    ordered sequence of pending write operations, empty at first. *)
Definition empty : WriteBatch := mkWriteBatch [].

(** Modelled from the spec: WriteBatch.isEmpty, the queryable empty state
    of the sequence of pending operations. *)
Definition isEmpty (b : WriteBatch) : bool :=
  match _writes b with [] => true | _ :: _ => false end.

(** Modelled from the spec: buffering puts one operation at the end of the
    ordered sequence. *)
Definition append (b : WriteBatch) (op : WriteOp) : WriteBatch :=
  mkWriteBatch (_writes b ++ [op]).

(** Modelled from the spec: WriteBatch.create buffers one create. *)
Definition create (b : WriteBatch) (documentRef data : Value) : WriteBatch :=
  append b (OpCreate documentRef data).

(** Modelled from the spec: WriteBatch.set buffers one set. *)
Definition set (b : WriteBatch) (documentRef data options : Value) : WriteBatch :=
  append b (OpSet documentRef data options).

(** Modelled from the spec: WriteBatch.update buffers one update, given the
    whole argument list (reference, data or first field, and the rest). *)
Definition update (b : WriteBatch) (args : list Value) : WriteBatch :=
  append b (OpUpdate args).

(** Modelled from the spec: WriteBatch.delete buffers one delete. *)
Definition delete (b : WriteBatch) (documentRef precondition : Value) : WriteBatch :=
  append b (OpDelete documentRef precondition).

End WriteBatchModel.

(** ** Requests and the recorded calls *)

(** [request.options] of beginTransaction:
    [{readWrite: {retryTransaction: ...}}]. *)
Record TransactionOptions : Type := mkTransactionOptions
  { retryTransaction : option TransactionId }.

Inductive Request : Type :=
| BeginRequest (database : string) (options : option TransactionOptions)
| RollbackRequest (database : string) (transaction : option TransactionId).

Record Response : Type := mkResponse { transaction : option TransactionId }.

(** A call that leaves the class.  [allowRetries] is [None] where the caller
    passes no fourth argument. *)
Inductive Event : Type :=
| EvDocumentGroupGet (documents : list Value) (transactionId : option TransactionId)
| EvQueryGet (query : Value) (transactionId : option TransactionId)
| EvRequest (method : string) (request : Request) (tag : string)
            (allowRetries : option bool)
| EvCommit (transactionId : option TransactionId) (requestTag : string)
           (writes : list WriteOp).

(** The database client handed to the constructor.  Its behaviour is that of
    the server behind it; every answer may depend on the calls made so far. *)
Record Firestore : Type := mkFirestore
  { formattedName : string;
    serverDocument : list Event → option TransactionId → string → option string;
    batchGetFailure : list Event → list Value → option TransactionId → option JsError;
    queryOutcome : list Event → Value → option TransactionId → Promise Value;
    requestOutcome : list Event → string → Request → Promise Response;
    commitOutcome : list Event → option TransactionId → list WriteOp → Promise Value }.

(** ** Objects and the store *)

(** The fields of an attempt.  [_previousTransaction] is the address of the
    attempt being retried; [_transactionId] is [None] while undefined.  The
    field [_validator] is [firestore._validator], whose two checks appear
    further down; the batch is owned by the attempt alone and is kept
    inside it. *)
Record Transaction : Type := mkTransaction
  { _firestore : Firestore;
    _previousTransaction : option nat;
    _writeBatch : WriteBatch;
    _requestTag : string;
    _transactionId : option TransactionId }.

(** [objects] holds the attempts by address; [tagSource] and [tagsDrawn] are
    the request-tag generator (the tags it will hand out, and how many it has
    handed out); [trace] lists the outgoing calls, oldest first. *)
Record Store : Type := mkStore
  { objects : gmap nat Transaction;
    tagSource : nat → string;
    tagsDrawn : nat;
    trace : list Event }.

(** ** The monad of method bodies *)

(** A method returns, throws, or is [Stuck] when it is handed an address
    that holds no object (no JavaScript execution reaches that). *)
Inductive Outcome (A : Type) : Type :=
| Returns (a : A) (s : Store)
| Throws (e : JsError) (s : Store)
| Stuck.
Arguments Returns {A} a s.
Arguments Throws {A} e s.
Arguments Stuck {A}.

Definition M (A : Type) : Type := Store → Outcome A.

Definition ret {A : Type} (a : A) : M A := fun s => Returns a s.

Definition bind {A B : Type} (m : M A) (k : A → M B) : M B :=
  fun s =>
    match m s with
    | Returns a s' => k a s'
    | Throws e s' => Throws e s'
    | Stuck => Stuck
    end.

Definition throw {A : Type} (e : JsError) : M A := fun s => Throws e s.

Notation "x <- c1 ;; c2" := (bind c1 (fun x => c2))
  (at level 100, c1 at next level, right associativity).
Notation "c1 ;;; c2" := (bind c1 (fun _ => c2))
  (at level 100, right associativity).

(** Reading and updating the object behind [this]. *)
Definition deref (this : nat) : M Transaction :=
  fun s =>
    match objects s !! this with
    | Some t => Returns t s
    | None => Stuck
    end.

Definition modify (this : nat) (f : Transaction → Transaction) : M unit :=
  fun s =>
    match objects s !! this with
    | Some t =>
        Returns tt (mkStore (<[this := f t]> (objects s))
                            (tagSource s) (tagsDrawn s) (trace s))
    | None => Stuck
    end.

Definition emit (e : Event) : M unit :=
  fun s => Returns tt (mkStore (objects s) (tagSource s) (tagsDrawn s)
                               (trace s ++ [e])).

Definition history : M (list Event) := fun s => Returns (trace s) s.

Definition alloc (t : Transaction) : M nat :=
  fun s =>
    let a := fresh (dom (objects s)) in
    Returns a (mkStore (<[a := t]> (objects s))
                       (tagSource s) (tagsDrawn s) (trace s)).

(** ** Collaborators outside the sources *)

(** Modelled from the spec: firestore.batch() (index.js is absent) hands the
    constructor a new, empty write batch. *)
Definition Firestore_batch (firestore : Firestore) : WriteBatch :=
  WriteBatchModel.empty.

(** Modelled from the spec: util.requestTag() (util.js is absent), the
    generator of correlation identifiers; each call hands out the next tag
    of the source. *)
Definition requestTag : M string :=
  fun s =>
    Returns (tagSource s (tagsDrawn s))
            (mkStore (objects s) (tagSource s) (S (tagsDrawn s)) (trace s)).

(** Modelled from the spec: validator.isDocumentReference(i, value)
    (validate.js is absent) fails with an argument error naming position [i]
    unless the value is a document reference. *)
Definition Validator_isDocumentReference (i : nat) (value : Value) : M unit :=
  if is_DocumentReference value then ret tt
  else throw (InvalidDocumentReference i).

(** Modelled from the spec: validator.minNumberOfArguments(funcName, args,
    minSize) fails with an argument error when fewer than [minSize]
    arguments were passed. *)
Definition Validator_minNumberOfArguments
    (funcName : string) (args : list Value) (minSize : nat) : M unit :=
  if Nat.ltb (List.length args) minSize
  then throw (TooFewArguments funcName minSize)
  else ret tt.

(** The snapshot the server holds for one reference. *)
Definition snapshotOf (firestore : Firestore) (h : list Event)
    (transactionId : option TransactionId) (document : Value) : Value :=
  match document with
  | VDocumentReference path =>
      VDocumentSnapshot path (serverDocument firestore h transactionId path)
  | _ => VUndefined
  end.

(** Modelled from the spec: new DocumentGroup(firestore, documents,
    {transactionId}).get() (document-group.js is absent), one batched fetch
    under the transaction id that yields the snapshots in input order, each
    reference answered on its own. *)
Definition DocumentGroup_get (firestore : Firestore) (documents : list Value)
    (transactionId : option TransactionId) : M (Promise (list Value)) :=
  h <- history ;;
  emit (EvDocumentGroupGet documents transactionId) ;;;
  ret (match batchGetFailure firestore h documents transactionId with
       | Some e => Rejected e
       | None => Resolved (map (snapshotOf firestore h transactionId) documents)
       end).

(** Modelled from the spec: Query._get(transactionId) (reference.js is
    absent) runs the query scoped to the given transaction id. *)
Definition Query_get (firestore : Firestore) (query : Value)
    (transactionId : option TransactionId) : M (Promise Value) :=
  h <- history ;;
  emit (EvQueryGet query transactionId) ;;;
  ret (queryOutcome firestore h query transactionId).

(** Modelled from the spec: firestore.request(method, request, tag,
    allowRetries) (index.js is absent) sends one RPC. *)
Definition Firestore_request (firestore : Firestore) (method : string)
    (request : Request) (tag : string) (allowRetries : option bool)
    : M (Promise Response) :=
  h <- history ;;
  emit (EvRequest method request tag allowRetries) ;;;
  ret (requestOutcome firestore h method request).

(** Modelled from the spec: WriteBatch.commit_({transactionId, requestTag})
    sends the commit RPC, which carries the transaction id, the request tag
    and the ordered batch of buffered writes. *)
Definition WriteBatch_commit_ (firestore : Firestore) (b : WriteBatch)
    (transactionId : option TransactionId) (tag : string) : M (Promise Value) :=
  h <- history ;;
  emit (EvCommit transactionId tag (_writes b)) ;;;
  ret (commitOutcome firestore h transactionId (_writes b)).

(** ** class Transaction *)

(** [get requestTag()] *)
Definition Transaction_requestTag (this : nat) : M string :=
  t <- deref this ;;
  ret (_requestTag t).

(** [constructor(firestore, previousTransaction)]; the result is the address
    of the new object. *)
Definition new_Transaction (firestore : Firestore)
    (previousTransaction : option nat) : M nat :=
  let writeBatch := Firestore_batch firestore in
  tag <- match previousTransaction with
         | Some previous => Transaction_requestTag previous
         | None => requestTag
         end ;;
  alloc {| _firestore := firestore;
           _previousTransaction := previousTransaction;
           _writeBatch := writeBatch;
           _requestTag := tag;
           _transactionId := None |}.

(** The loop over [documents] in getAll, from index [i] on. *)
Fixpoint validateDocuments (i : nat) (documents : list Value) : M unit :=
  match documents with
  | [] => ret tt
  | d :: rest =>
      Validator_isDocumentReference i d ;;;
      validateDocuments (S i) rest
  end.

(** [is.array(arguments[0]) ? arguments[0].slice()
                            : Array.prototype.slice.call(arguments)] *)
Definition normalizeDocuments (arguments : list Value) : list Value :=
  match arguments with
  | VArray elems :: _ => elems
  | _ => arguments
  end.

(** [getAll(documents)], called with the argument list [arguments]. *)
Definition getAll (this : nat) (arguments : list Value)
    : M (Promise (list Value)) :=
  t <- deref this ;;
  if negb (WriteBatchModel.isEmpty (_writeBatch t))
  then throw (Error READ_AFTER_WRITE_ERROR_MSG)
  else
    let documents := normalizeDocuments arguments in
    validateDocuments 0 documents ;;;
    DocumentGroup_get (_firestore t) documents (_transactionId t).

(** The callback [([res]) => res]. *)
Definition firstResult (results : list Value) : Value :=
  match results with
  | res :: _ => res
  | [] => VUndefined
  end.

(** [get(refOrQuery)] *)
Definition get (this : nat) (refOrQuery : Value) : M (Promise Value) :=
  t <- deref this ;;
  if negb (WriteBatchModel.isEmpty (_writeBatch t))
  then throw (Error READ_AFTER_WRITE_ERROR_MSG)
  else if is_DocumentReference refOrQuery
  then p <- getAll this [refOrQuery] ;; ret (then_ p firstResult)
  else if is_Query refOrQuery
  then Query_get (_firestore t) refOrQuery (_transactionId t)
  else throw (Error REF_OR_QUERY_ERROR_MSG).

(** Assignments to one field of an attempt. *)
Definition with_writeBatch (b : WriteBatch) (t : Transaction) : Transaction :=
  {| _firestore := _firestore t;
     _previousTransaction := _previousTransaction t;
     _writeBatch := b;
     _requestTag := _requestTag t;
     _transactionId := _transactionId t |}.

Definition with_transactionId (id : option TransactionId) (t : Transaction)
    : Transaction :=
  {| _firestore := _firestore t;
     _previousTransaction := _previousTransaction t;
     _writeBatch := _writeBatch t;
     _requestTag := _requestTag t;
     _transactionId := id |}.

(** [create(documentRef, data)] *)
Definition create (this : nat) (documentRef data : Value) : M nat :=
  modify this (fun t =>
    with_writeBatch (WriteBatchModel.create (_writeBatch t) documentRef data) t) ;;;
  ret this.

(** [set(documentRef, data, options)] *)
Definition set (this : nat) (documentRef data options : Value) : M nat :=
  modify this (fun t =>
    with_writeBatch
      (WriteBatchModel.set (_writeBatch t) documentRef data options) t) ;;;
  ret this.

(** [update(documentRef, dataOrField, preconditionOrValues)], called with the
    argument list [arguments]; a missing argument reads as [undefined]. *)
Definition update (this : nat) (arguments : list Value) : M nat :=
  Validator_minNumberOfArguments "update" arguments 2 ;;;
  let documentRef := nth 0 arguments VUndefined in
  let dataOrField := nth 1 arguments VUndefined in
  let preconditionOrValues := drop 2 arguments in
  modify this (fun t =>
    with_writeBatch
      (WriteBatchModel.update (_writeBatch t)
         ([documentRef; dataOrField] ++ preconditionOrValues)) t) ;;;
  ret this.

(** [delete(documentRef, precondition)] *)
Definition delete (this : nat) (documentRef precondition : Value) : M nat :=
  modify this (fun t =>
    with_writeBatch
      (WriteBatchModel.delete (_writeBatch t) documentRef precondition) t) ;;;
  ret this.

(** [begin()]: the request, then the callback that stores [resp.transaction]. *)
Definition begin (this : nat) : M (Promise unit) :=
  t <- deref this ;;
  options <- match _previousTransaction t with
             | Some previous =>
                 prev <- deref previous ;;
                 ret (Some (mkTransactionOptions (_transactionId prev)))
             | None => ret None
             end ;;
  let request := BeginRequest (formattedName (_firestore t)) options in
  p <- Firestore_request (_firestore t) "beginTransaction" request
         (_requestTag t) (Some ALLOW_RETRIES) ;;
  match p with
  | Resolved resp =>
      modify this (with_transactionId (transaction resp)) ;;;
      ret (Resolved tt)
  | Rejected e => ret (Rejected e)
  end.

(** [commit()] *)
Definition commit (this : nat) : M (Promise Value) :=
  t <- deref this ;;
  WriteBatch_commit_ (_firestore t) (_writeBatch t)
    (_transactionId t) (_requestTag t).

(** [rollback()] *)
Definition rollback (this : nat) : M (Promise Response) :=
  t <- deref this ;;
  let request :=
    RollbackRequest (formattedName (_firestore t)) (_transactionId t) in
  Firestore_request (_firestore t) "rollback" request (_requestTag t) None.

(** ** Sequences of method calls on one attempt *)

Inductive Call : Type :=
| CallGet (refOrQuery : Value)
| CallGetAll (arguments : list Value)
| CallCreate (documentRef data : Value)
| CallSet (documentRef data options : Value)
| CallUpdate (arguments : list Value)
| CallDelete (documentRef precondition : Value)
| CallBegin
| CallCommit
| CallRollback.

Definition isWrite (c : Call) : bool :=
  match c with
  | CallCreate _ _ | CallSet _ _ _ | CallUpdate _ | CallDelete _ _ => true
  | _ => false
  end.

Definition discard {A : Type} (m : M A) : M unit := _ <- m ;; ret tt.

Definition perform (this : nat) (c : Call) : M unit :=
  match c with
  | CallGet refOrQuery => discard (get this refOrQuery)
  | CallGetAll arguments => discard (getAll this arguments)
  | CallCreate documentRef data => discard (create this documentRef data)
  | CallSet documentRef data options =>
      discard (set this documentRef data options)
  | CallUpdate arguments => discard (update this arguments)
  | CallDelete documentRef precondition =>
      discard (delete this documentRef precondition)
  | CallBegin => discard (begin this)
  | CallCommit => discard (commit this)
  | CallRollback => discard (rollback this)
  end.

(** The store a call leaves behind, whether it returned or threw. *)
Definition storeAfter {A : Type} (o : Outcome A) : option Store :=
  match o with
  | Returns _ s => Some s
  | Throws _ s => Some s
  | Stuck => None
  end.

(** A caller that issues the calls one after the other and carries on after
    a call that throws. *)
Fixpoint performAll (this : nat) (calls : list Call) (s : Store) : option Store :=
  match calls with
  | [] => Some s
  | c :: rest =>
      match storeAfter (perform this c s) with
      | Some s' => performAll this rest s'
      | None => None
      end
  end.

(** The operation a call is expected to leave in the write batch, if any:
    one per write call that passes its argument check. *)
Definition bufferedBy (c : Call) : list WriteOp :=
  match c with
  | CallCreate documentRef data => [OpCreate documentRef data]
  | CallSet documentRef data options => [OpSet documentRef data options]
  | CallUpdate arguments =>
      if Nat.ltb (List.length arguments) 2 then [] else [OpUpdate arguments]
  | CallDelete documentRef precondition => [OpDelete documentRef precondition]
  | _ => []
  end.

Definition buffered (calls : list Call) : list WriteOp :=
  concat (map bufferedBy calls).

(** ** Well-formed stores *)

(** The attempt at [this] exists, and so does the attempt it retries. *)
Definition allocated (s : Store) (this : nat) : Prop :=
  ∃ t, objects s !! this = Some t
       ∧ ∀ previous, _previousTransaction t = Some previous →
                     is_Some (objects s !! previous).

Definition writesOf (s : Store) (this : nat) : option (list WriteOp) :=
  (fun t => _writes (_writeBatch t)) <$> objects s !! this.

(** [s'] is [s] after calls on the attempt at [this] that buffered exactly
    [ops]: the batch grew by [ops] at its end, the attempt kept its client,
    its back-reference and its tag, and no other object changed. *)
Definition extends (this : nat) (ops : list WriteOp) (s s' : Store) : Prop :=
  ∃ t t', objects s !! this = Some t
          ∧ objects s' !! this = Some t'
          ∧ _writes (_writeBatch t') = _writes (_writeBatch t) ++ ops
          ∧ _firestore t' = _firestore t
          ∧ _previousTransaction t' = _previousTransaction t
          ∧ _requestTag t' = _requestTag t
          ∧ ∀ a, a ≠ this → objects s' !! a = objects s !! a.

(** The options begin puts in its request: the retry marker read from the
    previous attempt as it is in the store at that moment, or none. *)
Definition beginOptions (s : Store) (t : Transaction)
    : option TransactionOptions :=
  match _previousTransaction t with
  | Some previous =>
      (fun P => mkTransactionOptions (_transactionId P))
        <$> objects s !! previous
  | None => None
  end.

(** The reading under which get with a query would demand a begun attempt:
    on an attempt without a transaction id the call throws, or returns a
    rejected promise, and no call leaves the class. *)
Definition get_query_requires_begin : Prop :=
  ∀ (s : Store) (this : nat) (t : Transaction) (q : string),
    objects s !! this = Some t →
    _transactionId t = None →
    ∃ e s', (get this (VQuery q) s = Throws e s'
             ∨ get this (VQuery q) s = Returns (Rejected e) s')
            ∧ trace s' = trace s.

(** ** Observing the outgoing calls *)

(** The request tag an outgoing call carries, if it carries one. *)
Definition eventTag (e : Event) : option string :=
  match e with
  | EvRequest _ _ tag _ => Some tag
  | EvCommit _ tag _ => Some tag
  | EvDocumentGroupGet _ _ => None
  | EvQueryGet _ _ => None
  end.

(** The transaction id an outgoing call is made under; a beginTransaction
    request has none of its own. *)
Definition eventTransactionId (e : Event) : option (option TransactionId) :=
  match e with
  | EvDocumentGroupGet _ id => Some id
  | EvQueryGet _ id => Some id
  | EvRequest _ (RollbackRequest _ id) _ _ => Some id
  | EvRequest _ (BeginRequest _ _) _ _ => None
  | EvCommit id _ _ => Some id
  end.

Definition isBegin (c : Call) : bool :=
  match c with CallBegin => true | _ => false end.

(** ** Chained writes *)

(** The four write methods return the attempt they were called on, so that
    [t.create(..).set(..).delete(..)] calls each method on the result of the
    one before. *)
Inductive WriteCall : Type :=
| WCreate (documentRef data : Value)
| WSet (documentRef data options : Value)
| WUpdate (arguments : list Value)
| WDelete (documentRef precondition : Value).

Definition write (this : nat) (w : WriteCall) : M nat :=
  match w with
  | WCreate documentRef data => create this documentRef data
  | WSet documentRef data options => set this documentRef data options
  | WUpdate arguments => update this arguments
  | WDelete documentRef precondition => delete this documentRef precondition
  end.

Fixpoint chain (this : nat) (ws : list WriteCall) : M nat :=
  match ws with
  | [] => ret this
  | w :: rest => next <- write this w ;; chain next rest
  end.

Definition callOf (w : WriteCall) : Call :=
  match w with
  | WCreate documentRef data => CallCreate documentRef data
  | WSet documentRef data options => CallSet documentRef data options
  | WUpdate arguments => CallUpdate arguments
  | WDelete documentRef precondition => CallDelete documentRef precondition
  end.

(** A write passes its argument check unless it is an update with fewer
    than two arguments. *)
Definition accepted (w : WriteCall) : bool :=
  match w with
  | WUpdate arguments => negb (Nat.ltb (List.length arguments) 2)
  | _ => true
  end.

(** The writes of a chain up to the first one that is not accepted. *)
Fixpoint acceptedPrefix (ws : list WriteCall) : list WriteCall :=
  match ws with
  | [] => []
  | w :: rest => if accepted w then w :: acceptedPrefix rest else []
  end.

(** ** Chains of retries *)

(** [n] attempts, each constructed from the one before, starting from
    [previous]; the result is the last one. *)
Fixpoint retries (firestore : Firestore) (n : nat) (previous : nat) : M nat :=
  match n with
  | 0 => ret previous
  | S k =>
      next <- new_Transaction firestore (Some previous) ;;
      retries firestore k next
  end.

(** A small closed world for the examples. *)
Module Sample.

Definition firestore : Firestore :=
  {| formattedName := "projects/p/databases/d";
     serverDocument := fun _ _ path => Some ("data of " +:+ path);
     batchGetFailure := fun _ _ _ => None;
     queryOutcome := fun _ query _ =>
       match query with
       | VQuery q => Resolved (VQuerySnapshot q ["col/doc1"])
       | _ => Resolved VUndefined
       end;
     requestOutcome := fun _ _ _ => Resolved (mkResponse (Some "tx-1"));
     commitOutcome := fun _ _ _ => Resolved (VObject "writeResults") |}.

Definition tags (n : nat) : string :=
  match n with 0 => "tag-a" | 1 => "tag-b" | _ => "tag-c" end.

Definition start : Store :=
  {| objects := ∅; tagSource := tags; tagsDrawn := 0; trace := [] |}.

Definition ref1 : Value := VDocumentReference "col/doc1".
Definition ref2 : Value := VDocumentReference "col/doc2".
Definition data1 : Value := VObject "{x:1}".
Definition junk : Value := VObject "not a reference".

(** Attempt A, constructed without a previous attempt; it is object 0. *)
Definition constructed : Store :=
  default start (storeAfter (new_Transaction firestore None start)).

(** A after [get(ref1)] and then [set(ref1, data1)]. *)
Definition afterGet : Store :=
  default constructed (performAll 0 [CallGet ref1] constructed).

Definition afterSet : Store :=
  default afterGet (performAll 0 [CallSet ref1 data1 VUndefined] afterGet).

(** The object A at construction and after the set. *)
Definition attemptA : Transaction :=
  {| _firestore := firestore;
     _previousTransaction := None;
     _writeBatch := WriteBatchModel.empty;
     _requestTag := "tag-a";
     _transactionId := None |}.

Definition attemptA_written : Transaction :=
  with_writeBatch (mkWriteBatch [OpSet ref1 data1 VUndefined]) attemptA.

(** A after a successful [begin()], and attempt B constructed from it; B
    is object 1. *)
Definition begun : Store :=
  default constructed (performAll 0 [CallBegin] constructed).

Definition retried : Store :=
  default begun (storeAfter (new_Transaction firestore (Some 0) begun)).

(** A after [get(query)], issued before any begin. *)
Definition afterQuery : Store :=
  default constructed (performAll 0 [CallGet (VQuery "q")] constructed).

Definition attemptB : Transaction :=
  {| _firestore := firestore;
     _previousTransaction := Some 0;
     _writeBatch := WriteBatchModel.empty;
     _requestTag := "tag-a";
     _transactionId := None |}.

End Sample.

(** * Properties *)

(** ** Basic facts *)

Lemma messages_differ : REF_OR_QUERY_ERROR_MSG ≠ READ_AFTER_WRITE_ERROR_MSG.
Proof. intros H. vm_compute in H. discriminate H. Qed.

Lemma isEmpty_writes (b : WriteBatch) :
  WriteBatchModel.isEmpty b = true ↔ _writes b = [].
Proof.
  unfold WriteBatchModel.isEmpty. destruct (_writes b); split; congruence.
Qed.

Lemma isEmpty_false_writes (b : WriteBatch) :
  WriteBatchModel.isEmpty b = false ↔ _writes b ≠ [].
Proof.
  unfold WriteBatchModel.isEmpty. destruct (_writes b); split; congruence.
Qed.

(** ** The read-after-write guard *)

Lemma get_guard (s : Store) (this : nat) (t : Transaction) (refOrQuery : Value) :
  objects s !! this = Some t →
  WriteBatchModel.isEmpty (_writeBatch t) = false →
  get this refOrQuery s = Throws (Error READ_AFTER_WRITE_ERROR_MSG) s.
Proof.
  intros Hthis Hne. unfold get, bind, deref, throw.
  rewrite Hthis. simpl. rewrite Hne. reflexivity.
Qed.

Lemma getAll_guard (s : Store) (this : nat) (t : Transaction)
    (arguments : list Value) :
  objects s !! this = Some t →
  WriteBatchModel.isEmpty (_writeBatch t) = false →
  getAll this arguments s = Throws (Error READ_AFTER_WRITE_ERROR_MSG) s.
Proof.
  intros Hthis Hne. unfold getAll, bind, deref, throw.
  rewrite Hthis. simpl. rewrite Hne. reflexivity.
Qed.

(** The validation loop does not touch the store; it stops at the first
    element that is not a document reference. *)
Lemma validateDocuments_references (i : nat) (refs : list string) (s : Store) :
  validateDocuments i (map VDocumentReference refs) s = Returns tt s.
Proof.
  revert i. induction refs as [|r refs IH]; intros i; simpl; [reflexivity|].
  unfold bind, Validator_isDocumentReference. simpl. apply IH.
Qed.

Lemma validateDocuments_outcome (i : nat) (documents : list Value) (s : Store) :
  validateDocuments i documents s = Returns tt s
  ∨ ∃ j, validateDocuments i documents s = Throws (InvalidDocumentReference j) s.
Proof.
  revert i. induction documents as [|d documents IH]; intros i; simpl.
  - left. reflexivity.
  - unfold bind, Validator_isDocumentReference.
    destruct (is_DocumentReference d); simpl.
    + apply IH.
    + right. exists i. reflexivity.
Qed.

(** With an empty batch, getAll validates and then asks the document group. *)
Lemma getAll_empty (s : Store) (this : nat) (t : Transaction)
    (arguments : list Value) :
  objects s !! this = Some t →
  WriteBatchModel.isEmpty (_writeBatch t) = true →
  getAll this arguments s =
    (validateDocuments 0 (normalizeDocuments arguments) ;;;
     DocumentGroup_get (_firestore t) (normalizeDocuments arguments)
       (_transactionId t)) s.
Proof.
  intros Hthis He. unfold getAll, bind at 1, deref.
  rewrite Hthis. simpl. rewrite He. reflexivity.
Qed.

(** A read that throws the read-after-write message met a non-empty batch. *)
Lemma get_throws_guard (s s0 : Store) (this : nat) (refOrQuery : Value) :
  get this refOrQuery s = Throws (Error READ_AFTER_WRITE_ERROR_MSG) s0 →
  ∃ t, objects s !! this = Some t
       ∧ WriteBatchModel.isEmpty (_writeBatch t) = false.
Proof.
  unfold get, bind at 1, deref.
  destruct (objects s !! this) as [t|] eqn:Hthis; [|discriminate].
  destruct (WriteBatchModel.isEmpty (_writeBatch t)) eqn:He; simpl.
  - intros H. exfalso.
    destruct refOrQuery; simpl in H;
      try (unfold throw in H; apply messages_differ; congruence).
    + unfold bind in H. rewrite (getAll_empty _ _ _ _ Hthis He) in H.
      unfold bind, Validator_isDocumentReference, DocumentGroup_get,
        bind, history, emit, ret in H.
      simpl in H. discriminate H.
    + unfold Query_get, bind, history, emit, ret in H. discriminate H.
  - intros _. exists t. split; [reflexivity | exact He].
Qed.

Lemma getAll_throws_guard (s s0 : Store) (this : nat) (arguments : list Value) :
  getAll this arguments s = Throws (Error READ_AFTER_WRITE_ERROR_MSG) s0 →
  ∃ t, objects s !! this = Some t
       ∧ WriteBatchModel.isEmpty (_writeBatch t) = false.
Proof.
  intros H.
  destruct (objects s !! this) as [t|] eqn:Hthis.
  - destruct (WriteBatchModel.isEmpty (_writeBatch t)) eqn:He.
    + exfalso. rewrite (getAll_empty _ _ _ _ Hthis He) in H.
      unfold bind in H.
      destruct (validateDocuments_outcome 0 (normalizeDocuments arguments) s)
        as [Hv|[j Hv]]; rewrite Hv in H.
      * unfold DocumentGroup_get, bind, history, emit, ret in H.
        discriminate H.
      * discriminate H.
    + exists t. split; [reflexivity | exact He].
  - unfold getAll, bind, deref in H. rewrite Hthis in H. discriminate H.
Qed.

(** ** Calls only ever extend the batch *)

Lemma update_arguments (arguments : list Value) :
  (2 ≤ List.length arguments)%nat →
  [nth 0 arguments VUndefined; nth 1 arguments VUndefined] ++ drop 2 arguments
  = arguments.
Proof.
  destruct arguments as [|a [|b rest]]; simpl; intros H; try lia.
  reflexivity.
Qed.

Lemma extends_same_objects (this : nat) (t : Transaction) (s s' : Store) :
  objects s !! this = Some t →
  objects s' = objects s →
  extends this [] s s'.
Proof.
  intros Hthis Hobj. exists t, t. rewrite Hobj, app_nil_r.
  repeat split; auto.
Qed.

Lemma extends_written (this : nat) (t : Transaction) (ops : list WriteOp)
    (s s' : Store) :
  objects s !! this = Some t →
  objects s' =
    <[this := with_writeBatch (mkWriteBatch (_writes (_writeBatch t) ++ ops)) t]>
      (objects s) →
  extends this ops s s'.
Proof.
  intros Hthis Hobj. eexists t, _. rewrite Hobj.
  split; [exact Hthis|]. split; [apply lookup_insert_eq|].
  repeat split; auto. intros a Ha. apply lookup_insert_ne. congruence.
Qed.

Lemma extends_begun (this : nat) (t : Transaction) (id : option TransactionId)
    (s s' : Store) :
  objects s !! this = Some t →
  objects s' = <[this := with_transactionId id t]> (objects s) →
  extends this [] s s'.
Proof.
  intros Hthis Hobj. eexists t, _. rewrite Hobj.
  split; [exact Hthis|]. split; [apply lookup_insert_eq|].
  simpl. rewrite app_nil_r.
  repeat split; auto. intros a Ha. apply lookup_insert_ne. congruence.
Qed.

Lemma extends_trans (this : nat) (ops1 ops2 : list WriteOp) (s1 s2 s3 : Store) :
  extends this ops1 s1 s2 →
  extends this ops2 s2 s3 →
  extends this (ops1 ++ ops2) s1 s3.
Proof.
  intros (t1 & t2 & H1 & H2 & Hw & Hf & Hp & Hr & Ho)
         (t2' & t3 & H2' & H3 & Hw' & Hf' & Hp' & Hr' & Ho').
  assert (t2' = t2) as -> by congruence.
  exists t1, t3. repeat split; try congruence.
  - rewrite Hw', Hw, app_assoc. reflexivity.
  - intros a Ha. rewrite Ho', Ho by exact Ha. reflexivity.
Qed.

Lemma extends_allocated (this : nat) (ops : list WriteOp) (s s' : Store) :
  allocated s this →
  extends this ops s s' →
  allocated s' this.
Proof.
  intros (t0 & Hthis & Hprev) (t & t' & H1 & H2 & _ & _ & Hp & _ & Ho).
  assert (t0 = t) as -> by congruence.
  exists t'. split; [exact H2|].
  intros previous Hpt. rewrite Hp in Hpt.
  destruct (decide (previous = this)) as [->|Hne].
  - rewrite H2. eauto.
  - rewrite Ho by exact Hne. apply Hprev, Hpt.
Qed.

(** The two ways a call ends: the objects are as before, or the batch of
    [this] has grown by the operation of the call. *)
Ltac batch_untouched Hthis :=
  eexists; split; [reflexivity|];
  eapply extends_same_objects; [exact Hthis | reflexivity].

Ltac batch_grown Hthis :=
  eexists; split; [reflexivity|];
  eapply extends_written; [exact Hthis | reflexivity].

Lemma perform_extends (this : nat) (c : Call) (s : Store) :
  allocated s this →
  ∃ s', storeAfter (perform this c s) = Some s'
        ∧ extends this (bufferedBy c) s s'.
Proof.
  intros (t & Hthis & Hprev).
  destruct c as [refOrQuery|arguments|documentRef data|documentRef data options
                |arguments|documentRef precondition| | |]; simpl.
  - (* get *)
    unfold discard, bind at 1.
    destruct (WriteBatchModel.isEmpty (_writeBatch t)) eqn:He.
    + unfold get, bind at 1, deref. rewrite Hthis. simpl. rewrite He. simpl.
      destruct (is_DocumentReference refOrQuery) eqn:Hd.
      * unfold bind at 1. rewrite (getAll_empty _ _ _ _ Hthis He).
        destruct refOrQuery; try discriminate Hd.
        unfold bind, Validator_isDocumentReference, DocumentGroup_get,
          bind, history, emit, ret. simpl.
        batch_untouched Hthis.
      * destruct (is_Query refOrQuery).
        -- unfold Query_get, bind, history, emit, ret. simpl.
           batch_untouched Hthis.
        -- unfold throw. simpl.
           batch_untouched Hthis.
    + rewrite (get_guard _ _ _ _ Hthis He). simpl.
      batch_untouched Hthis.
  - (* getAll *)
    unfold discard, bind at 1.
    destruct (WriteBatchModel.isEmpty (_writeBatch t)) eqn:He.
    + rewrite (getAll_empty _ _ _ _ Hthis He). unfold bind at 1.
      destruct (validateDocuments_outcome 0 (normalizeDocuments arguments) s)
        as [Hv|[j Hv]]; rewrite Hv.
      * unfold DocumentGroup_get, bind, history, emit, ret. simpl.
        batch_untouched Hthis.
      * simpl. batch_untouched Hthis.
    + rewrite (getAll_guard _ _ _ _ Hthis He). simpl.
      batch_untouched Hthis.
  - (* create *)
    unfold discard, create, bind, modify, ret. rewrite Hthis. simpl.
    batch_grown Hthis.
  - (* set *)
    unfold discard, set, bind, modify, ret. rewrite Hthis. simpl.
    batch_grown Hthis.
  - (* update *)
    unfold discard, update, bind, Validator_minNumberOfArguments.
    destruct (Nat.ltb (List.length arguments) 2) eqn:Hlen.
    + unfold throw. simpl. batch_untouched Hthis.
    + apply Nat.ltb_ge in Hlen.
      unfold ret, modify. rewrite Hthis. simpl.
      eexists. split; [reflexivity|].
      eapply extends_written; [exact Hthis|]. simpl.
      pose proof (update_arguments arguments Hlen) as Hargs.
      simpl in Hargs. unfold WriteBatchModel.update. rewrite Hargs.
      reflexivity.
  - (* delete *)
    unfold discard, delete, bind, modify, ret. rewrite Hthis. simpl.
    batch_grown Hthis.
  - (* begin *)
    unfold discard, begin, bind at 1 2, deref. rewrite Hthis.
    assert (∃ options,
      (match _previousTransaction t with
       | Some previous =>
           prev <- (fun s0 => match objects s0 !! previous with
                              | Some t0 => Returns t0 s0
                              | None => Stuck
                              end) ;;
           ret (Some (mkTransactionOptions (_transactionId prev)))
       | None => ret None
       end) s = Returns options s) as [options Hopt].
    { destruct (_previousTransaction t) as [previous|].
      - destruct (Hprev previous eq_refl) as [P HP].
        unfold bind, ret. rewrite HP. eauto.
      - unfold ret. eauto. }
    unfold bind at 1. rewrite Hopt.
    unfold Firestore_request, bind, history, emit, ret. simpl.
    destruct (requestOutcome _ _ _ _) as [resp|e]; simpl.
    + unfold modify. simpl. rewrite Hthis. simpl.
      eexists. split; [reflexivity|].
      eapply extends_begun; [exact Hthis | reflexivity].
    + batch_untouched Hthis.
  - (* commit *)
    unfold discard, commit, WriteBatch_commit_, bind, deref, history, emit, ret.
    rewrite Hthis. simpl.
    batch_untouched Hthis.
  - (* rollback *)
    unfold discard, rollback, Firestore_request, bind, deref, history, emit, ret.
    rewrite Hthis. simpl.
    batch_untouched Hthis.
Qed.

Lemma performAll_extends (this : nat) (calls : list Call) (s : Store) :
  allocated s this →
  ∃ s', performAll this calls s = Some s'
        ∧ extends this (buffered calls) s s'.
Proof.
  revert s. induction calls as [|c calls IH]; intros s Hs.
  - exists s. split; [reflexivity|].
    destruct Hs as (t & Hthis & _).
    eapply extends_same_objects; [exact Hthis | reflexivity].
  - destruct (perform_extends this c s Hs) as (s1 & Hrun & Hext).
    destruct (IH s1 (extends_allocated _ _ _ _ Hs Hext)) as (s2 & Hrest & Hext').
    exists s2. split.
    + simpl. rewrite Hrun. exact Hrest.
    + unfold buffered. simpl. eapply extends_trans; eassumption.
Qed.

Lemma write_leaves_batch_nonempty (this : nat) (w : Call) (s0 s : Store) :
  isWrite w = true →
  perform this w s0 = Returns tt s →
  ∃ t, objects s !! this = Some t
       ∧ WriteBatchModel.isEmpty (_writeBatch t) = false.
Proof.
  intros Hw Hrun.
  assert (∀ (t0 : Transaction) (b : WriteBatch) (op : WriteOp),
    WriteBatchModel.isEmpty
      (_writeBatch (with_writeBatch (WriteBatchModel.append b op) t0)) = false)
    as Hnonempty.
  { intros t0 b op. apply isEmpty_false_writes. simpl.
    destruct (_writes b); discriminate. }
  destruct w; try discriminate Hw; simpl in Hrun;
    unfold discard, create, set, update, delete, bind, modify, ret,
      Validator_minNumberOfArguments, throw in Hrun;
    try (destruct (Nat.ltb (List.length arguments) 2); [discriminate Hrun|]);
    simpl in Hrun;
    destruct (objects s0 !! this) as [t0|] eqn:Hthis; try discriminate Hrun;
    simpl in Hrun; injection Hrun as <-; simpl;
    (eexists; split; [apply lookup_insert_eq | apply Hnonempty]).
Qed.

Lemma errorKind_read_after_write :
  errorKind (Error READ_AFTER_WRITE_ERROR_MSG) = SequencingError.
Proof. unfold errorKind. case_decide; congruence. Qed.

(** C1: a read (get or getAll) issued while the attempt's write batch is
    non-empty, in particular in the store left by any write call (create,
    set, update, delete) that returned, throws the read-after-write error,
    which is the sequencing error.  The starting store is arbitrary, so the
    number of earlier successful reads does not matter; the failing read
    leaves the store as it was, so the next read meets the same check. *)
Theorem read_after_write_fails (s : Store) (this : nat)
    (Hwritten :
       (∃ t, objects s !! this = Some t
             ∧ WriteBatchModel.isEmpty (_writeBatch t) = false)
       ∨ (∃ s0 w, isWrite w = true ∧ perform this w s0 = Returns tt s)) :
  (∀ refOrQuery,
     get this refOrQuery s = Throws (Error READ_AFTER_WRITE_ERROR_MSG) s)
  ∧ (∀ arguments,
       getAll this arguments s = Throws (Error READ_AFTER_WRITE_ERROR_MSG) s)
  ∧ errorKind (Error READ_AFTER_WRITE_ERROR_MSG) = SequencingError.
Proof.
  assert (∃ t, objects s !! this = Some t
               ∧ WriteBatchModel.isEmpty (_writeBatch t) = false)
    as (t & Hthis & Hne).
  { destruct Hwritten as [H|(s0 & w & Hw & Hrun)]; [exact H|].
    eapply write_leaves_batch_nonempty; eassumption. }
  split; [|split].
  - intros refOrQuery. eapply get_guard; eassumption.
  - intros arguments. eapply getAll_guard; eassumption.
  - apply errorKind_read_after_write.
Qed.

(** The second scenario of the specification: A reads ref1, sets ref1, and
    then fails to read ref2. *)
Lemma read_after_write_fails_witness :
  (isWrite (CallSet Sample.ref1 Sample.data1 VUndefined) = true
   ∧ perform 0 (CallSet Sample.ref1 Sample.data1 VUndefined) Sample.afterGet
     = Returns tt Sample.afterSet)
  ∧ get 0 Sample.ref2 Sample.afterSet
    = Throws (Error READ_AFTER_WRITE_ERROR_MSG) Sample.afterSet.
Proof.
  assert (isWrite (CallSet Sample.ref1 Sample.data1 VUndefined) = true
          ∧ perform 0 (CallSet Sample.ref1 Sample.data1 VUndefined)
              Sample.afterGet = Returns tt Sample.afterSet) as H.
  { split; [reflexivity | vm_compute; reflexivity]. }
  split; [exact H|].
  apply (read_after_write_fails Sample.afterSet 0).
  right. exists Sample.afterGet, (CallSet Sample.ref1 Sample.data1 VUndefined).
  exact H.
Defined.

(** ** Argument validation *)

(** What validation reports when the batch is empty: an argument that is
    neither a reference nor a query, and a list with an element that is not
    a reference, are argument errors. *)
Lemma get_malformed_when_empty (s : Store) (this : nat) (t : Transaction)
    (refOrQuery : Value) :
  objects s !! this = Some t →
  WriteBatchModel.isEmpty (_writeBatch t) = true →
  is_DocumentReference refOrQuery = false →
  is_Query refOrQuery = false →
  get this refOrQuery s = Throws (Error REF_OR_QUERY_ERROR_MSG) s
  ∧ errorKind (Error REF_OR_QUERY_ERROR_MSG) = ArgumentError.
Proof.
  intros Hthis He Hd Hq. split.
  - unfold get, bind, deref. rewrite Hthis. simpl.
    rewrite He, Hd, Hq. reflexivity.
  - unfold errorKind. case_decide as Hm; [|reflexivity].
    destruct (messages_differ Hm).
Qed.

Lemma getAll_malformed_when_empty (s : Store) (this : nat) (t : Transaction)
    (refs : list string) (bad : Value) (rest : list Value) :
  objects s !! this = Some t →
  WriteBatchModel.isEmpty (_writeBatch t) = true →
  is_DocumentReference bad = false →
  getAll this [VArray (map VDocumentReference refs ++ bad :: rest)] s
  = Throws (InvalidDocumentReference (List.length refs)) s.
Proof.
  intros Hthis He Hbad. rewrite (getAll_empty _ _ _ _ Hthis He). simpl.
  assert (∀ i, validateDocuments i (map VDocumentReference refs ++ bad :: rest) s
               = Throws (InvalidDocumentReference (i + List.length refs)) s)
    as Hloop.
  { induction refs as [|r refs IH]; intros i; simpl.
    - unfold bind, Validator_isDocumentReference. rewrite Hbad. simpl.
      unfold throw. f_equal. f_equal. lia.
    - unfold bind at 1, Validator_isDocumentReference. simpl.
      rewrite (IH (S i)). f_equal. f_equal. lia. }
  unfold bind. rewrite (Hloop 0). reflexivity.
Qed.

(** C10: in get and in getAll the emptiness check comes before every check
    of the arguments: on an attempt whose write batch is non-empty, every
    call, whatever its arguments (well-formed or not), throws the
    read-after-write error, and that error is not an argument error. *)
Theorem guard_precedes_validation (s : Store) (this : nat) (t : Transaction)
    (Hthis : objects s !! this = Some t)
    (Hnonempty : _writes (_writeBatch t) ≠ []) :
  ∀ (refOrQuery : Value) (arguments : list Value),
    get this refOrQuery s = Throws (Error READ_AFTER_WRITE_ERROR_MSG) s
    ∧ getAll this arguments s = Throws (Error READ_AFTER_WRITE_ERROR_MSG) s
    ∧ errorKind (Error READ_AFTER_WRITE_ERROR_MSG) ≠ ArgumentError.
Proof.
  intros refOrQuery arguments.
  apply isEmpty_false_writes in Hnonempty.
  split; [|split].
  - eapply get_guard; eassumption.
  - eapply getAll_guard; eassumption.
  - rewrite errorKind_read_after_write. discriminate.
Qed.

(** After [set(ref1, data1)], a get of a value that is no reference and a
    getAll with such a value in second position both fail on the guard. *)
Lemma guard_precedes_validation_witness :
  get 0 Sample.junk Sample.afterSet
  = Throws (Error READ_AFTER_WRITE_ERROR_MSG) Sample.afterSet
  ∧ getAll 0 [Sample.ref1; Sample.junk] Sample.afterSet
    = Throws (Error READ_AFTER_WRITE_ERROR_MSG) Sample.afterSet
  ∧ errorKind (Error READ_AFTER_WRITE_ERROR_MSG) ≠ ArgumentError.
Proof.
  eapply (guard_precedes_validation Sample.afterSet 0).
  - vm_compute. reflexivity.
  - simpl. discriminate.
Defined.

(** ** Reading documents *)

Lemma normalizeDocuments_variadic (refs : list string) :
  normalizeDocuments (map VDocumentReference refs) = map VDocumentReference refs.
Proof. destruct refs; reflexivity. Qed.

Lemma normalizeDocuments_array (documents : list Value) :
  normalizeDocuments [VArray documents] = documents.
Proof. reflexivity. Qed.

(** getAll on valid references, in either calling convention. *)
Lemma getAll_references (s : Store) (this : nat) (t : Transaction)
    (refs : list string) (arguments : list Value) :
  objects s !! this = Some t →
  WriteBatchModel.isEmpty (_writeBatch t) = true →
  arguments = map VDocumentReference refs
  ∨ arguments = [VArray (map VDocumentReference refs)] →
  getAll this arguments s =
    DocumentGroup_get (_firestore t) (map VDocumentReference refs)
      (_transactionId t) s.
Proof.
  intros Hthis He Hargs. rewrite (getAll_empty _ _ _ _ Hthis He).
  assert (normalizeDocuments arguments = map VDocumentReference refs) as ->.
  { destruct Hargs as [-> | ->].
    - apply normalizeDocuments_variadic.
    - apply normalizeDocuments_array. }
  unfold bind at 1. rewrite validateDocuments_references. reflexivity.
Qed.

(** C3: called on an attempt with an empty batch with document references
    [refs], passed one by one or as one array, getAll makes exactly one call
    to the document group, with the whole list of references in input order
    and the attempt's current [_transactionId], and returns that group's
    promise.  Unless the fetch itself fails, the promise resolves to as many
    snapshots as references, the i-th one being the snapshot of the i-th
    reference, repeated references included. *)
Theorem getAll_preserves_order (s : Store) (this : nat) (t : Transaction)
    (refs : list string) (arguments : list Value)
    (Hthis : objects s !! this = Some t)
    (Hempty : WriteBatchModel.isEmpty (_writeBatch t) = true)
    (Hargs : arguments = map VDocumentReference refs
             ∨ arguments = [VArray (map VDocumentReference refs)]) :
  ∃ p s',
    getAll this arguments s = Returns p s'
    ∧ objects s' = objects s
    ∧ trace s' = trace s ++ [EvDocumentGroupGet (map VDocumentReference refs)
                                                (_transactionId t)]
    ∧ match batchGetFailure (_firestore t) (trace s)
              (map VDocumentReference refs) (_transactionId t)
      with
      | Some e => p = Rejected e
      | None =>
          ∃ snapshots,
            p = Resolved snapshots
            ∧ List.length snapshots = List.length refs
            ∧ ∀ i path, refs !! i = Some path →
                snapshots !! i =
                  Some (VDocumentSnapshot path
                          (serverDocument (_firestore t) (trace s)
                             (_transactionId t) path))
      end.
Proof.
  rewrite (getAll_references _ _ _ _ _ Hthis Hempty Hargs).
  unfold DocumentGroup_get, bind, history, emit, ret. simpl.
  eexists _, _. split; [reflexivity|]. simpl.
  split; [reflexivity|]. split; [reflexivity|].
  destruct (batchGetFailure _ _ _ _) as [e|]; [reflexivity|].
  eexists. split; [reflexivity|]. split.
  - rewrite !length_map. reflexivity.
  - intros i path Hi.
    change (map ?f ?l) with (f <$> l).
    rewrite !list_lookup_fmap, Hi. reflexivity.
Qed.

(** [getAll([d1, d2, d1])] on the new attempt A. *)
Lemma getAll_preserves_order_witness :
  ∃ p s',
    getAll 0 [VArray [Sample.ref1; Sample.ref2; Sample.ref1]] Sample.constructed
    = Returns p s'
    ∧ objects s' = objects Sample.constructed
    ∧ trace s' = trace Sample.constructed
                 ++ [EvDocumentGroupGet [Sample.ref1; Sample.ref2; Sample.ref1]
                       None]
    ∧ ∃ snapshots,
        p = Resolved snapshots
        ∧ List.length snapshots = 3
        ∧ ∀ i path, ["col/doc1"; "col/doc2"; "col/doc1"] !! i = Some path →
            snapshots !! i =
              Some (VDocumentSnapshot path (Some ("data of " +:+ path))).
Proof.
  apply (getAll_preserves_order Sample.constructed 0 Sample.attemptA
           ["col/doc1"; "col/doc2"; "col/doc1"]).
  - vm_compute. reflexivity.
  - reflexivity.
  - right. reflexivity.
Defined.

(** get on a document reference is getAll on that one reference followed by
    the unwrapping callback, in every store. *)
Lemma get_document_unfold (s : Store) (this : nat) (path : string) :
  get this (VDocumentReference path) s =
    (p <- getAll this [VDocumentReference path] ;;
     ret (then_ p firstResult)) s.
Proof.
  unfold get, bind at 1, deref.
  destruct (objects s !! this) as [t|] eqn:Hthis.
  - destruct (WriteBatchModel.isEmpty (_writeBatch t)) eqn:He; simpl.
    + reflexivity.
    + unfold bind, throw. rewrite (getAll_guard _ _ _ _ Hthis He). reflexivity.
  - unfold bind, getAll, bind, deref. rewrite Hthis. reflexivity.
Qed.

(** C2: for a document reference d on an attempt with an empty batch,
    [getAll(d)] returns a promise and [get(d)] returns that promise passed
    through the unwrapping callback, after the same single call to the
    document group; when the promise of getAll resolves, it resolves to a
    one-element sequence and get resolves to that element. *)
Theorem get_unwraps_getAll (s : Store) (this : nat) (t : Transaction)
    (path : string)
    (Hthis : objects s !! this = Some t)
    (Hempty : WriteBatchModel.isEmpty (_writeBatch t) = true) :
  ∃ p s',
    getAll this [VDocumentReference path] s = Returns p s'
    ∧ get this (VDocumentReference path) s = Returns (then_ p firstResult) s'
    ∧ ∀ snapshots, p = Resolved snapshots →
        ∃ snapshot, snapshots = [snapshot]
                    ∧ then_ p firstResult = Resolved snapshot.
Proof.
  rewrite get_document_unfold. unfold bind at 1.
  pose proof (getAll_references s this t [path] _ Hthis Hempty
                (or_introl eq_refl)) as Hone.
  simpl in Hone. rewrite Hone.
  unfold DocumentGroup_get, bind, history, emit, ret. simpl.
  eexists _, _. split; [reflexivity|]. split; [reflexivity|].
  intros snapshots Hp.
  destruct (batchGetFailure _ _ _ _); [discriminate Hp|].
  injection Hp as <-. eexists. split; reflexivity.
Qed.

(** [get(ref1)] and [getAll(ref1)] on the new attempt A. *)
Lemma get_unwraps_getAll_witness :
  ∃ p s',
    getAll 0 [Sample.ref1] Sample.constructed = Returns p s'
    ∧ get 0 Sample.ref1 Sample.constructed = Returns (then_ p firstResult) s'
    ∧ ∀ snapshots, p = Resolved snapshots →
        ∃ snapshot, snapshots = [snapshot]
                    ∧ then_ p firstResult = Resolved snapshot.
Proof.
  apply (get_unwraps_getAll Sample.constructed 0
           Sample.attemptA
           "col/doc1").
  - vm_compute. reflexivity.
  - reflexivity.
Defined.

(** ** Writes *)

(** C4: update called with fewer than two arguments throws the argument
    error of the argument-count check and leaves the store, and with it the
    write batch of every attempt, exactly as it was. *)
Theorem update_requires_two_arguments (s : Store) (this : nat)
    (arguments : list Value)
    (Hfew : (List.length arguments < 2)%nat) :
  update this arguments s = Throws (TooFewArguments "update" 2) s
  ∧ errorKind (TooFewArguments "update" 2) = ArgumentError
  ∧ (∀ s', storeAfter (update this arguments s) = Some s' →
           writesOf s' this = writesOf s this).
Proof.
  assert (update this arguments s = Throws (TooFewArguments "update" 2) s)
    as Hthrow.
  { unfold update, bind, Validator_minNumberOfArguments.
    apply Nat.ltb_lt in Hfew. rewrite Hfew. reflexivity. }
  split; [exact Hthrow|]. split; [reflexivity|].
  intros s'. rewrite Hthrow. simpl. intros [= <-]. reflexivity.
Qed.

(** [update(ref1)] after [get(ref1)] on attempt A. *)
Lemma update_requires_two_arguments_witness :
  update 0 [Sample.ref1] Sample.afterGet
  = Throws (TooFewArguments "update" 2) Sample.afterGet
  ∧ errorKind (TooFewArguments "update" 2) = ArgumentError
  ∧ (∀ s', storeAfter (update 0 [Sample.ref1] Sample.afterGet) = Some s' →
           writesOf s' 0 = writesOf Sample.afterGet 0).
Proof.
  apply (update_requires_two_arguments Sample.afterGet 0 [Sample.ref1]).
  simpl. lia.
Defined.

(** ** Construction *)

Lemma new_Transaction_returns (firestore : Firestore) (previous : option nat)
    (s s' : Store) (this : nat) :
  new_Transaction firestore previous s = Returns this s' →
  ∃ tag,
    objects s !! this = None
    ∧ objects s' =
        <[this := {| _firestore := firestore;
                     _previousTransaction := previous;
                     _writeBatch := WriteBatchModel.empty;
                     _requestTag := tag;
                     _transactionId := None |}]> (objects s)
    ∧ trace s' = trace s
    ∧ tagSource s' = tagSource s
    ∧ match previous with
      | Some p => ∃ P, objects s !! p = Some P
                       ∧ tag = _requestTag P
                       ∧ tagsDrawn s' = tagsDrawn s
      | None => tag = tagSource s (tagsDrawn s)
                ∧ tagsDrawn s' = S (tagsDrawn s)
      end.
Proof.
  unfold new_Transaction, Firestore_batch, bind, alloc.
  assert (∀ m : gmap nat Transaction, m !! fresh (dom m) = None) as Hfresh.
  { intros m. apply not_elem_of_dom, is_fresh. }
  destruct previous as [p|].
  - unfold Transaction_requestTag, bind, deref, ret.
    destruct (objects s !! p) as [P|] eqn:HP; [|discriminate].
    simpl. intros [= <- <-]. exists (_requestTag P). simpl.
    repeat split; auto. exists P. auto.
  - unfold requestTag. simpl. intros [= <- <-].
    exists (tagSource s (tagsDrawn s)). simpl.
    repeat split; auto.
Qed.

(** C5: constructing an attempt from a previous attempt P yields a new
    object whose request tag is P's (the generator is not consulted) and
    whose write batch is empty, whatever P has buffered; P itself is left as
    it was.  Constructing an attempt without a previous one takes the next
    tag from the generator, and its batch is empty as well. *)
Theorem retry_reuses_tag_with_fresh_batch (firestore : Firestore) (s : Store)
    (previous : nat) (P : Transaction)
    (Hprevious : objects s !! previous = Some P) :
  (∃ this T s',
     new_Transaction firestore (Some previous) s = Returns this s'
     ∧ objects s !! this = None
     ∧ objects s' !! this = Some T
     ∧ _previousTransaction T = Some previous
     ∧ _requestTag T = _requestTag P
     ∧ _writes (_writeBatch T) = []
     ∧ WriteBatchModel.isEmpty (_writeBatch T) = true
     ∧ objects s' !! previous = Some P
     ∧ tagsDrawn s' = tagsDrawn s)
  ∧ (∃ this T s',
       new_Transaction firestore None s = Returns this s'
       ∧ objects s !! this = None
       ∧ objects s' !! this = Some T
       ∧ _previousTransaction T = None
       ∧ _requestTag T = tagSource s (tagsDrawn s)
       ∧ _writes (_writeBatch T) = []
       ∧ WriteBatchModel.isEmpty (_writeBatch T) = true
       ∧ tagsDrawn s' = S (tagsDrawn s)).
Proof.
  split.
  - destruct (new_Transaction firestore (Some previous) s) as [this s'| |]
      eqn:Hnew.
    + destruct (new_Transaction_returns _ _ _ _ _ Hnew)
        as (tag & Hnone & Hobj & _ & _ & P' & HP' & Htag & Hdrawn).
      assert (P' = P) as -> by congruence.
      eexists this, _, s'. split; [reflexivity|]. rewrite Hobj.
      split; [exact Hnone|]. split; [apply lookup_insert_eq|]. simpl.
      repeat split; auto.
      rewrite lookup_insert_ne by congruence. exact Hprevious.
    + exfalso. revert Hnew.
      unfold new_Transaction, Transaction_requestTag, bind, deref, ret, alloc.
      rewrite Hprevious. discriminate.
    + exfalso. revert Hnew.
      unfold new_Transaction, Transaction_requestTag, bind, deref, ret, alloc.
      rewrite Hprevious. discriminate.
  - destruct (new_Transaction firestore None s) as [this s'| |] eqn:Hnew.
    + destruct (new_Transaction_returns _ _ _ _ _ Hnew)
        as (tag & Hnone & Hobj & _ & _ & Htag & Hdrawn).
      eexists this, _, s'. split; [reflexivity|]. rewrite Hobj.
      split; [exact Hnone|]. split; [apply lookup_insert_eq|]. simpl.
      repeat split; auto.
    + discriminate Hnew.
    + discriminate Hnew.
Qed.

(** A retry of attempt A, constructed after A buffered a set. *)
Lemma retry_reuses_tag_with_fresh_batch_witness :
  (∃ this T s',
     new_Transaction Sample.firestore (Some 0) Sample.afterSet = Returns this s'
     ∧ objects Sample.afterSet !! this = None
     ∧ objects s' !! this = Some T
     ∧ _previousTransaction T = Some 0
     ∧ _requestTag T = _requestTag Sample.attemptA_written
     ∧ _writes (_writeBatch T) = []
     ∧ WriteBatchModel.isEmpty (_writeBatch T) = true
     ∧ objects s' !! 0 = Some Sample.attemptA_written
     ∧ tagsDrawn s' = tagsDrawn Sample.afterSet)
  ∧ (∃ this T s',
       new_Transaction Sample.firestore None Sample.afterSet = Returns this s'
       ∧ objects Sample.afterSet !! this = None
       ∧ objects s' !! this = Some T
       ∧ _previousTransaction T = None
       ∧ _requestTag T
         = tagSource Sample.afterSet (tagsDrawn Sample.afterSet)
       ∧ _writes (_writeBatch T) = []
       ∧ WriteBatchModel.isEmpty (_writeBatch T) = true
       ∧ tagsDrawn s' = S (tagsDrawn Sample.afterSet)).
Proof.
  apply (retry_reuses_tag_with_fresh_batch Sample.firestore Sample.afterSet 0
           Sample.attemptA_written).
  vm_compute. reflexivity.
Defined.

(** ** begin, commit and queries *)

(** C6: begin sends one beginTransaction request, retryable, under the
    attempt's tag, carrying the database name; the request has options, whose
    retry marker is the previous attempt's [_transactionId], exactly when
    the attempt has a previous attempt.  When the request resolves, the
    transaction id of the response is stored on the attempt; when it is
    rejected, the attempt is left as it was. *)
Theorem begin_sends_retry_marker (s : Store) (this : nat) (t : Transaction)
    (Hthis : objects s !! this = Some t)
    (Hprevious : ∀ previous, _previousTransaction t = Some previous →
                             is_Some (objects s !! previous)) :
  let request :=
    BeginRequest (formattedName (_firestore t)) (beginOptions s t) in
  ∃ p s',
    begin this s = Returns p s'
    ∧ trace s' = trace s ++ [EvRequest "beginTransaction" request
                               (_requestTag t) (Some true)]
    ∧ (is_Some (beginOptions s t) ↔ is_Some (_previousTransaction t))
    ∧ (∀ previous P, _previousTransaction t = Some previous →
                     objects s !! previous = Some P →
                     beginOptions s t
                     = Some (mkTransactionOptions (_transactionId P)))
    ∧ match requestOutcome (_firestore t) (trace s) "beginTransaction" request
      with
      | Resolved resp =>
          p = Resolved tt
          ∧ objects s' =
              <[this := with_transactionId (transaction resp) t]> (objects s)
      | Rejected e => p = Rejected e ∧ objects s' = objects s
      end.
Proof.
  intros request.
  assert (
    (match _previousTransaction t with
     | Some previous =>
         prev <- deref previous ;;
         ret (Some (mkTransactionOptions (_transactionId prev)))
     | None => ret None
     end) s = Returns (beginOptions s t) s) as Hopt.
  { unfold beginOptions.
    destruct (_previousTransaction t) as [previous|]; [|reflexivity].
    destruct (Hprevious previous eq_refl) as [P HP].
    unfold bind, deref, ret. rewrite HP. reflexivity. }
  unfold begin. unfold bind at 1. unfold deref at 1. rewrite Hthis.
  unfold bind at 1. rewrite Hopt.
  unfold Firestore_request, bind, history, emit, ret. simpl.
  fold request.
  destruct (requestOutcome (_firestore t) (trace s) "beginTransaction" request)
    as [resp|e] eqn:Hout; simpl.
  - unfold modify. simpl. rewrite Hthis.
    eexists _, _. split; [reflexivity|]. simpl.
    split; [reflexivity|]. split; [|split; [|split; reflexivity]].
    + unfold beginOptions.
      destruct (_previousTransaction t) as [previous|].
      * destruct (Hprevious previous eq_refl) as [P HP]. rewrite HP.
        simpl. split; eauto.
      * split; intros [? ?]; discriminate.
    + intros previous P Hp HP. unfold beginOptions. rewrite Hp, HP.
      reflexivity.
  - eexists _, _. split; [reflexivity|]. simpl.
    split; [reflexivity|]. split; [|split; [|split; reflexivity]].
    + unfold beginOptions.
      destruct (_previousTransaction t) as [previous|].
      * destruct (Hprevious previous eq_refl) as [P HP]. rewrite HP.
        simpl. split; eauto.
      * split; intros [? ?]; discriminate.
    + intros previous P Hp HP. unfold beginOptions. rewrite Hp, HP.
      reflexivity.
Qed.

(** Attempt B, constructed from A after A's begin obtained the id tx-1,
    sends tx-1 as its retry marker. *)
Lemma begin_sends_retry_marker_witness :
  let request :=
    BeginRequest (formattedName Sample.firestore)
      (beginOptions Sample.retried Sample.attemptB) in
  beginOptions Sample.retried Sample.attemptB
  = Some (mkTransactionOptions (Some "tx-1"))
  ∧ ∃ p s',
    begin 1 Sample.retried = Returns p s'
    ∧ trace s' = trace Sample.retried
                 ++ [EvRequest "beginTransaction" request "tag-a" (Some true)]
    ∧ (is_Some (beginOptions Sample.retried Sample.attemptB)
       ↔ is_Some (_previousTransaction Sample.attemptB))
    ∧ (∀ previous P, _previousTransaction Sample.attemptB = Some previous →
                     objects Sample.retried !! previous = Some P →
                     beginOptions Sample.retried Sample.attemptB
                     = Some (mkTransactionOptions (_transactionId P)))
    ∧ match requestOutcome Sample.firestore (trace Sample.retried)
              "beginTransaction" request
      with
      | Resolved resp =>
          p = Resolved tt
          ∧ objects s' =
              <[1 := with_transactionId (transaction resp) Sample.attemptB]>
                (objects Sample.retried)
      | Rejected e => p = Rejected e ∧ objects s' = objects Sample.retried
      end.
Proof.
  split; [vm_compute; reflexivity|].
  apply (begin_sends_retry_marker Sample.retried 1 Sample.attemptB).
  - vm_compute. reflexivity.
  - intros previous [= <-]. vm_compute. eauto.
Defined.

(** commit hands the batch, the current id and the tag to the batch's own
    commit, in every store. *)
Lemma commit_delegates (s : Store) (this : nat) (t : Transaction) :
  objects s !! this = Some t →
  commit this s =
    WriteBatch_commit_ (_firestore t) (_writeBatch t)
      (_transactionId t) (_requestTag t) s.
Proof.
  intros Hthis. unfold commit, bind, deref. rewrite Hthis. reflexivity.
Qed.

(** C7: take an attempt from its construction through any sequence of calls
    (reads, writes, begin, earlier commits, rollbacks; calls that throw are
    survived).  A commit then makes exactly one commit call, carrying the
    attempt's current [_transactionId] and its request tag, and the writes
    it carries are the operations of the write calls that passed their
    argument check, in the order of the calls. *)
Theorem commit_sends_buffered_writes (firestore : Firestore)
    (previous : option nat) (s0 s1 : Store) (this : nat) (calls : list Call)
    (Hnew : new_Transaction firestore previous s0 = Returns this s1) :
  ∃ s2 t s3,
    performAll this calls s1 = Some s2
    ∧ objects s2 !! this = Some t
    ∧ _writes (_writeBatch t) = buffered calls
    ∧ commit this s2 =
        Returns (commitOutcome firestore (trace s2) (_transactionId t)
                   (buffered calls)) s3
    ∧ objects s3 = objects s2
    ∧ trace s3 = trace s2 ++ [EvCommit (_transactionId t) (_requestTag t)
                                       (buffered calls)].
Proof.
  destruct (new_Transaction_returns _ _ _ _ _ Hnew)
    as (tag & Hnone & Hobj & _ & _ & Hprev).
  assert (allocated s1 this) as Halloc.
  { eexists. rewrite Hobj. split; [apply lookup_insert_eq|]. simpl.
    intros p ->. destruct Hprev as (P & HP & _).
    rewrite lookup_insert_ne by congruence. eauto. }
  destruct (performAll_extends this calls s1 Halloc)
    as (s2 & Hrun & t1 & t2 & H1 & H2 & Hw & Hf & _).
  rewrite Hobj, lookup_insert_eq in H1. injection H1 as <-.
  simpl in Hw, Hf.
  exists s2, t2. eexists. split; [exact Hrun|]. split; [exact H2|].
  split; [exact Hw|].
  rewrite (commit_delegates _ _ _ H2).
  unfold WriteBatch_commit_, bind, history, emit, ret. simpl.
  rewrite Hw, Hf. split; [reflexivity|]. split; reflexivity.
Qed.

(** Attempt A: create, an update with one argument only (refused), an update
    with three arguments, a read (refused), begin; the commit then carries
    the create and the second update, under the id obtained by begin. *)
Lemma commit_sends_buffered_writes_witness :
  let calls :=
    [CallCreate Sample.ref1 Sample.data1;
     CallUpdate [Sample.ref1];
     CallUpdate [Sample.ref1; Sample.data1; Sample.data1];
     CallGet Sample.ref2;
     CallBegin] in
  new_Transaction Sample.firestore None Sample.start
  = Returns 0 Sample.constructed
  ∧ buffered calls
    = [OpCreate Sample.ref1 Sample.data1;
       OpUpdate [Sample.ref1; Sample.data1; Sample.data1]]
  ∧ ∃ s2 t s3,
    performAll 0 calls Sample.constructed = Some s2
    ∧ objects s2 !! 0 = Some t
    ∧ _writes (_writeBatch t) = buffered calls
    ∧ commit 0 s2 =
        Returns (commitOutcome Sample.firestore (trace s2) (_transactionId t)
                   (buffered calls)) s3
    ∧ objects s3 = objects s2
    ∧ trace s3 = trace s2 ++ [EvCommit (_transactionId t) (_requestTag t)
                                       (buffered calls)].
Proof.
  intros calls.
  assert (new_Transaction Sample.firestore None Sample.start
          = Returns 0 Sample.constructed) as Hnew.
  { vm_compute. reflexivity. }
  split; [exact Hnew|]. split; [reflexivity|].
  exact (commit_sends_buffered_writes Sample.firestore None Sample.start
           Sample.constructed 0 calls Hnew).
Defined.

(** C8 as stated fails: a query read on the new attempt A, which has not
    begun, runs the query with no transaction id and its snapshot comes
    back. *)
Lemma get_query_before_begin_counterexample :
  objects Sample.constructed !! 0 = Some Sample.attemptA
  ∧ _transactionId Sample.attemptA = None
  ∧ get 0 (VQuery "q") Sample.constructed
    = Returns (Resolved (VQuerySnapshot "q" ["col/doc1"])) Sample.afterQuery
  ∧ trace Sample.afterQuery = [EvQueryGet (VQuery "q") None]
  ∧ ¬ get_query_requires_begin.
Proof.
  assert (objects Sample.constructed !! 0 = Some Sample.attemptA) as Hthis.
  { vm_compute. reflexivity. }
  assert (get 0 (VQuery "q") Sample.constructed
          = Returns (Resolved (VQuerySnapshot "q" ["col/doc1"]))
              Sample.afterQuery) as Hget.
  { vm_compute. reflexivity. }
  split; [exact Hthis|]. split; [reflexivity|]. split; [exact Hget|].
  split; [vm_compute; reflexivity|].
  intros Hclaim.
  destruct (Hclaim Sample.constructed 0 Sample.attemptA "q" Hthis eq_refl)
    as (e & s' & [H|H] & _); rewrite Hget in H; discriminate H.
Qed.

(** C8, amended: get with a query on an attempt whose batch is empty does
    not look at whether the attempt has begun.  It runs the query with the
    attempt's current [_transactionId], set or not, and returns the query's
    promise; when the id is unset the query is sent without one. *)
Theorem get_query_uses_current_id (s : Store) (this : nat) (t : Transaction)
    (q : string)
    (Hthis : objects s !! this = Some t)
    (Hempty : WriteBatchModel.isEmpty (_writeBatch t) = true) :
  ∃ s',
    get this (VQuery q) s =
      Returns (queryOutcome (_firestore t) (trace s) (VQuery q)
                 (_transactionId t)) s'
    ∧ objects s' = objects s
    ∧ trace s' = trace s ++ [EvQueryGet (VQuery q) (_transactionId t)]
    ∧ (_transactionId t = None →
       trace s' = trace s ++ [EvQueryGet (VQuery q) None]).
Proof.
  unfold get, bind, deref. rewrite Hthis. simpl. rewrite Hempty. simpl.
  unfold Query_get, bind, history, emit, ret. simpl.
  eexists. split; [reflexivity|]. simpl.
  split; [reflexivity|]. split; [reflexivity|].
  intros ->. reflexivity.
Qed.

Lemma get_query_uses_current_id_witness :
  ∃ s',
    get 0 (VQuery "q") Sample.constructed =
      Returns (queryOutcome Sample.firestore (trace Sample.constructed)
                 (VQuery "q") (_transactionId Sample.attemptA)) s'
    ∧ objects s' = objects Sample.constructed
    ∧ trace s' = trace Sample.constructed
                 ++ [EvQueryGet (VQuery "q") (_transactionId Sample.attemptA)]
    ∧ (_transactionId Sample.attemptA = None →
       trace s' = trace Sample.constructed ++ [EvQueryGet (VQuery "q") None]).
Proof.
  apply (get_query_uses_current_id Sample.constructed 0 Sample.attemptA "q").
  - vm_compute. reflexivity.
  - reflexivity.
Defined.

(** ** Monotonicity of the guard *)

(** C9: whatever calls are made on an attempt (reads, writes, begin, commit,
    rollback, in any number and order), its write batch afterwards is the
    batch before with the newly buffered operations at its end: nothing is
    removed.  Hence a non-empty batch stays non-empty, and if some read
    threw the read-after-write error before the calls, every read throws it
    after them. *)
Theorem guard_is_monotonic (s : Store) (this : nat) (calls : list Call)
    (Hthis : allocated s this) :
  ∃ s' ws,
    performAll this calls s = Some s'
    ∧ writesOf s this = Some ws
    ∧ writesOf s' this = Some (ws ++ buffered calls)
    ∧ (ws ≠ [] → ws ++ buffered calls ≠ [])
    ∧ ((∃ refOrQuery s0,
          get this refOrQuery s = Throws (Error READ_AFTER_WRITE_ERROR_MSG) s0)
       ∨ (∃ arguments s0,
            getAll this arguments s
            = Throws (Error READ_AFTER_WRITE_ERROR_MSG) s0) →
       ∀ refOrQuery arguments,
         get this refOrQuery s' = Throws (Error READ_AFTER_WRITE_ERROR_MSG) s'
         ∧ getAll this arguments s'
           = Throws (Error READ_AFTER_WRITE_ERROR_MSG) s').
Proof.
  destruct (performAll_extends this calls s Hthis)
    as (s' & Hrun & t & t' & H1 & H2 & Hw & _).
  exists s', (_writes (_writeBatch t)).
  split; [exact Hrun|].
  split; [unfold writesOf; rewrite H1; reflexivity|].
  split; [unfold writesOf; rewrite H2; simpl; rewrite Hw; reflexivity|].
  assert (_writes (_writeBatch t) ≠ [] →
          _writes (_writeBatch t) ++ buffered calls ≠ []) as Hkeep.
  { destruct (_writes (_writeBatch t)); [congruence | discriminate]. }
  split; [exact Hkeep|].
  intros Hfailed refOrQuery arguments.
  assert (WriteBatchModel.isEmpty (_writeBatch t) = false) as Hne.
  { destruct Hfailed as [(v & s0 & Hv)|(args & s0 & Hv)].
    - destruct (get_throws_guard _ _ _ _ Hv) as (t0 & Ht0 & Hne).
      congruence.
    - destruct (getAll_throws_guard _ _ _ _ Hv) as (t0 & Ht0 & Hne).
      congruence. }
  assert (WriteBatchModel.isEmpty (_writeBatch t') = false) as Hne'.
  { apply isEmpty_false_writes. rewrite Hw.
    apply Hkeep, isEmpty_false_writes, Hne. }
  split.
  - eapply get_guard; eassumption.
  - eapply getAll_guard; eassumption.
Qed.

(** Attempt A after its set: a refused read, a delete, another refused
    read, begin, commit and rollback later, the batch holds the set and the
    delete. *)
Lemma guard_is_monotonic_witness :
  let calls :=
    [CallGet Sample.ref1; CallDelete Sample.ref2 VUndefined; CallGetAll [];
     CallBegin; CallCommit; CallRollback] in
  ∃ s' ws,
    performAll 0 calls Sample.afterSet = Some s'
    ∧ writesOf Sample.afterSet 0 = Some ws
    ∧ writesOf s' 0 = Some (ws ++ buffered calls)
    ∧ (ws ≠ [] → ws ++ buffered calls ≠ [])
    ∧ ((∃ refOrQuery s0,
          get 0 refOrQuery Sample.afterSet
          = Throws (Error READ_AFTER_WRITE_ERROR_MSG) s0)
       ∨ (∃ arguments s0,
            getAll 0 arguments Sample.afterSet
            = Throws (Error READ_AFTER_WRITE_ERROR_MSG) s0) →
       ∀ refOrQuery arguments,
         get 0 refOrQuery s' = Throws (Error READ_AFTER_WRITE_ERROR_MSG) s'
         ∧ getAll 0 arguments s'
           = Throws (Error READ_AFTER_WRITE_ERROR_MSG) s').
Proof.
  intros calls.
  apply (guard_is_monotonic Sample.afterSet 0 calls).
  exists Sample.attemptA_written. split.
  - vm_compute. reflexivity.
  - intros previous H. discriminate H.
Defined.

(** * Further properties of the class *)

(** ** Calls that throw *)

Lemma errorKind_ref_or_query :
  errorKind (Error REF_OR_QUERY_ERROR_MSG) = ArgumentError.
Proof.
  unfold errorKind. case_decide as Hm; [|reflexivity].
  destruct (messages_differ Hm).
Qed.





(** ** When reads are refused, and what they report *)

(** X2: the guard refuses nothing else.  On an existing attempt, get (with
    any argument) and getAll (with any arguments) throw the read-after-write
    error exactly when the write batch holds an operation; before the first
    write no read is ever refused with that error. *)
Theorem read_refused_iff_written (s : Store) (this : nat) (t : Transaction)
    (Hthis : objects s !! this = Some t) :
  (∀ refOrQuery,
     (∃ s0, get this refOrQuery s
            = Throws (Error READ_AFTER_WRITE_ERROR_MSG) s0)
     ↔ _writes (_writeBatch t) ≠ [])
  ∧ (∀ arguments,
       (∃ s0, getAll this arguments s
              = Throws (Error READ_AFTER_WRITE_ERROR_MSG) s0)
       ↔ _writes (_writeBatch t) ≠ []).
Proof.
  split.
  - intros refOrQuery. split.
    + intros (s0 & H). destruct (get_throws_guard _ _ _ _ H) as (t0 & Ht0 & Hne).
      assert (t0 = t) as -> by congruence.
      apply isEmpty_false_writes, Hne.
    + intros Hne. exists s. eapply get_guard; [exact Hthis|].
      apply isEmpty_false_writes, Hne.
  - intros arguments. split.
    + intros (s0 & H).
      destruct (getAll_throws_guard _ _ _ _ H) as (t0 & Ht0 & Hne).
      assert (t0 = t) as -> by congruence.
      apply isEmpty_false_writes, Hne.
    + intros Hne. exists s. eapply getAll_guard; [exact Hthis|].
      apply isEmpty_false_writes, Hne.
Qed.

Lemma read_refused_iff_written_witness :
  (∀ refOrQuery,
     (∃ s0, get 0 refOrQuery Sample.afterSet
            = Throws (Error READ_AFTER_WRITE_ERROR_MSG) s0)
     ↔ _writes (_writeBatch Sample.attemptA_written) ≠ [])
  ∧ (∀ arguments,
       (∃ s0, getAll 0 arguments Sample.afterSet
              = Throws (Error READ_AFTER_WRITE_ERROR_MSG) s0)
       ↔ _writes (_writeBatch Sample.attemptA_written) ≠ []).
Proof.
  apply (read_refused_iff_written Sample.afterSet 0 Sample.attemptA_written).
  vm_compute. reflexivity.
Defined.

(** X3: get accepts a document reference or a query and nothing else.  On an
    attempt with an empty batch, any other argument (none at all, an array
    of references, plain data) makes get throw the refOrQuery argument
    error without any outgoing call; a reference or a query never draws
    that error. *)
Theorem get_accepts_reference_or_query (s : Store) (this : nat)
    (t : Transaction) (refOrQuery : Value)
    (Hthis : objects s !! this = Some t)
    (Hempty : WriteBatchModel.isEmpty (_writeBatch t) = true) :
  (get this refOrQuery s = Throws (Error REF_OR_QUERY_ERROR_MSG) s
   ↔ is_DocumentReference refOrQuery = false ∧ is_Query refOrQuery = false)
  ∧ errorKind (Error REF_OR_QUERY_ERROR_MSG) = ArgumentError.
Proof.
  split; [|apply errorKind_ref_or_query]. split.
  - intros H. revert H. unfold get, bind at 1, deref. rewrite Hthis. simpl.
    rewrite Hempty. simpl.
    destruct (is_DocumentReference refOrQuery) eqn:Hd.
    + destruct refOrQuery; try discriminate Hd.
      unfold bind at 1. rewrite (getAll_empty _ _ _ _ Hthis Hempty).
      unfold bind, Validator_isDocumentReference, DocumentGroup_get,
        bind, history, emit, ret. simpl. discriminate.
    + destruct (is_Query refOrQuery).
      * unfold Query_get, bind, history, emit, ret. discriminate.
      * intros _. split; reflexivity.
  - intros [Hd Hq]. unfold get, bind, deref. rewrite Hthis. simpl.
    rewrite Hempty, Hd, Hq. reflexivity.
Qed.

(** [get([ref1])]: an array is refused by get, although getAll takes it. *)
Lemma get_accepts_reference_or_query_witness :
  (get 0 (VArray [Sample.ref1]) Sample.constructed
   = Throws (Error REF_OR_QUERY_ERROR_MSG) Sample.constructed
   ↔ is_DocumentReference (VArray [Sample.ref1]) = false
     ∧ is_Query (VArray [Sample.ref1]) = false)
  ∧ errorKind (Error REF_OR_QUERY_ERROR_MSG) = ArgumentError.
Proof.
  apply (get_accepts_reference_or_query Sample.constructed 0 Sample.attemptA).
  - vm_compute. reflexivity.
  - reflexivity.
Defined.

Lemma validateDocuments_first_invalid (i : nat) (refs : list string)
    (bad : Value) (rest : list Value) (s : Store) :
  is_DocumentReference bad = false →
  validateDocuments i (map VDocumentReference refs ++ bad :: rest) s
  = Throws (InvalidDocumentReference (i + List.length refs)) s.
Proof.
  intros Hbad. revert i. induction refs as [|r refs IH]; intros i; simpl.
  - unfold bind, Validator_isDocumentReference. rewrite Hbad. simpl.
    unfold throw. f_equal. f_equal. lia.
  - unfold bind at 1, Validator_isDocumentReference. simpl.
    rewrite (IH (S i)). f_equal. f_equal. lia.
Qed.

(** X4: getAll reports the first element that is not a document reference,
    by its position in the normalised list, and fetches nothing.  With an
    empty batch, if the documents are references up to position n and the
    element at n is not one, getAll throws the argument error for position
    n, whatever follows, and the store is unchanged: the document group is
    not called. *)
Theorem getAll_reports_first_invalid (s : Store) (this : nat)
    (t : Transaction) (arguments : list Value) (refs : list string)
    (bad : Value) (rest : list Value)
    (Hthis : objects s !! this = Some t)
    (Hempty : WriteBatchModel.isEmpty (_writeBatch t) = true)
    (Hdocuments : normalizeDocuments arguments
                  = map VDocumentReference refs ++ bad :: rest)
    (Hbad : is_DocumentReference bad = false) :
  getAll this arguments s
  = Throws (InvalidDocumentReference (List.length refs)) s
  ∧ errorKind (InvalidDocumentReference (List.length refs)) = ArgumentError.
Proof.
  split; [|reflexivity].
  rewrite (getAll_empty _ _ _ _ Hthis Hempty), Hdocuments.
  unfold bind. rewrite (validateDocuments_first_invalid 0 _ _ _ _ Hbad).
  reflexivity.
Qed.

(** [getAll(ref1, [ref2], junk)]: the array in second place is not unpacked;
    it is the first invalid element, at position 1. *)
Lemma getAll_reports_first_invalid_witness :
  getAll 0 [Sample.ref1; VArray [Sample.ref2]; Sample.junk] Sample.constructed
  = Throws (InvalidDocumentReference 1) Sample.constructed
  ∧ errorKind (InvalidDocumentReference 1) = ArgumentError.
Proof.
  apply (getAll_reports_first_invalid Sample.constructed 0 Sample.attemptA
           [Sample.ref1; VArray [Sample.ref2]; Sample.junk]
           ["col/doc1"] (VArray [Sample.ref2]) [Sample.junk]).
  - vm_compute. reflexivity.
  - reflexivity.
  - reflexivity.
  - reflexivity.
Defined.

(** X5: when the first argument of getAll is an array, the documents are
    that array's elements and every further argument is dropped unseen,
    valid or not.  With an empty batch and an array of references followed
    by arbitrary other arguments, getAll makes the one document-group call
    for the array's references and ends exactly as the call with the array
    alone. *)
Theorem getAll_array_ignores_other_arguments (s : Store) (this : nat)
    (t : Transaction) (refs : list string) (others : list Value)
    (Hthis : objects s !! this = Some t)
    (Hempty : WriteBatchModel.isEmpty (_writeBatch t) = true) :
  ∃ p s',
    getAll this (VArray (map VDocumentReference refs) :: others) s
    = Returns p s'
    ∧ getAll this [VArray (map VDocumentReference refs)] s = Returns p s'
    ∧ objects s' = objects s
    ∧ trace s' = trace s ++ [EvDocumentGroupGet (map VDocumentReference refs)
                                                (_transactionId t)].
Proof.
  assert (∀ more,
    getAll this (VArray (map VDocumentReference refs) :: more) s
    = DocumentGroup_get (_firestore t) (map VDocumentReference refs)
        (_transactionId t) s) as Hcall.
  { intros more. rewrite (getAll_empty _ _ _ _ Hthis Hempty). simpl.
    unfold bind at 1. rewrite validateDocuments_references. reflexivity. }
  rewrite (Hcall others), (Hcall []).
  unfold DocumentGroup_get, bind, history, emit, ret. simpl.
  eexists _, _. repeat split; reflexivity.
Qed.

(** [getAll([ref1, ref2], junk, junk)] on the new attempt A. *)
Lemma getAll_array_ignores_other_arguments_witness :
  ∃ p s',
    getAll 0 (VArray (map VDocumentReference ["col/doc1"; "col/doc2"])
              :: [Sample.junk; Sample.junk]) Sample.constructed
    = Returns p s'
    ∧ getAll 0 [VArray (map VDocumentReference ["col/doc1"; "col/doc2"])]
        Sample.constructed = Returns p s'
    ∧ objects s' = objects Sample.constructed
    ∧ trace s' = trace Sample.constructed
                 ++ [EvDocumentGroupGet
                       (map VDocumentReference ["col/doc1"; "col/doc2"])
                       (_transactionId Sample.attemptA)].
Proof.
  apply (getAll_array_ignores_other_arguments Sample.constructed 0
           Sample.attemptA ["col/doc1"; "col/doc2"]
           [Sample.junk; Sample.junk]).
  - vm_compute. reflexivity.
  - reflexivity.
Defined.

(** ** What each call sends and changes *)

Ltac step_done Hthis :=
  eexists _, _, _; split; [reflexivity|]; simpl;
  split; [first [exact Hthis | apply lookup_insert_eq]|];
  split; [first [reflexivity | symmetry; apply app_nil_r]|];
  simpl; repeat split;
  try (repeat constructor; simpl; auto; fail);
  try (intros; simpl; first [reflexivity | discriminate | lia]).

(** One call on an existing attempt: the store it leaves, the calls it
    sent, and what it kept. *)
Lemma perform_emits (this : nat) (c : Call) (s : Store) (t : Transaction) :
  objects s !! this = Some t →
  (isBegin c = true →
   ∀ previous, _previousTransaction t = Some previous →
               is_Some (objects s !! previous)) →
  ∃ s' t' evs,
    storeAfter (perform this c s) = Some s'
    ∧ objects s' !! this = Some t'
    ∧ trace s' = trace s ++ evs
    ∧ (List.length evs ≤ 1)%nat
    ∧ Forall (fun e => eventTag e = None
                       ∨ eventTag e = Some (_requestTag t)) evs
    ∧ Forall (fun e => eventTransactionId e = None
                       ∨ eventTransactionId e = Some (_transactionId t)) evs
    ∧ (isBegin c = false → _transactionId t' = _transactionId t)
    ∧ (isWrite c = true → evs = [])
    ∧ tagsDrawn s' = tagsDrawn s
    ∧ (isWrite c = false → isBegin c = false → objects s' = objects s).
Proof.
  intros Hthis Hprev.
  destruct c as [refOrQuery|arguments|documentRef data|documentRef data options
                |arguments|documentRef precondition| | |]; simpl.
  - (* get *)
    unfold discard, bind at 1.
    destruct (WriteBatchModel.isEmpty (_writeBatch t)) eqn:He.
    + unfold get, bind at 1, deref. rewrite Hthis. simpl. rewrite He. simpl.
      destruct (is_DocumentReference refOrQuery) eqn:Hd.
      * unfold bind at 1. rewrite (getAll_empty _ _ _ _ Hthis He).
        destruct refOrQuery; try discriminate Hd.
        unfold bind, Validator_isDocumentReference, DocumentGroup_get,
          bind, history, emit, ret. simpl.
        step_done Hthis.
      * destruct (is_Query refOrQuery).
        -- unfold Query_get, bind, history, emit, ret. simpl.
           step_done Hthis.
        -- unfold throw. simpl. step_done Hthis.
    + rewrite (get_guard _ _ _ _ Hthis He). simpl. step_done Hthis.
  - (* getAll *)
    unfold discard, bind at 1.
    destruct (WriteBatchModel.isEmpty (_writeBatch t)) eqn:He.
    + rewrite (getAll_empty _ _ _ _ Hthis He). unfold bind at 1.
      destruct (validateDocuments_outcome 0 (normalizeDocuments arguments) s)
        as [Hv|[j Hv]]; rewrite Hv.
      * unfold DocumentGroup_get, bind, history, emit, ret. simpl.
        step_done Hthis.
      * simpl. step_done Hthis.
    + rewrite (getAll_guard _ _ _ _ Hthis He). simpl. step_done Hthis.
  - (* create *)
    unfold discard, create, bind, modify, ret. rewrite Hthis. simpl.
    step_done Hthis.
  - (* set *)
    unfold discard, set, bind, modify, ret. rewrite Hthis. simpl.
    step_done Hthis.
  - (* update *)
    unfold discard, update, bind, Validator_minNumberOfArguments.
    destruct (Nat.ltb (List.length arguments) 2) eqn:Hlen.
    + unfold throw. simpl. step_done Hthis.
    + unfold ret, modify. rewrite Hthis. simpl. step_done Hthis.
  - (* delete *)
    unfold discard, delete, bind, modify, ret. rewrite Hthis. simpl.
    step_done Hthis.
  - (* begin *)
    unfold discard, begin. unfold bind at 1 2. unfold deref at 1.
    rewrite Hthis.
    assert (
      (match _previousTransaction t with
       | Some previous =>
           prev <- deref previous ;;
           ret (Some (mkTransactionOptions (_transactionId prev)))
       | None => ret None
       end) s = Returns (beginOptions s t) s) as Hopt.
    { unfold beginOptions.
      destruct (_previousTransaction t) as [previous|]; [|reflexivity].
      destruct (Hprev eq_refl previous eq_refl) as [P HP].
      unfold bind, deref, ret. rewrite HP. reflexivity. }
    unfold bind at 1. rewrite Hopt.
    unfold Firestore_request, bind, history, emit, ret. simpl.
    destruct (requestOutcome _ _ _ _) as [resp|e]; simpl.
    + unfold modify. simpl. rewrite Hthis. simpl. step_done Hthis.
    + step_done Hthis.
  - (* commit *)
    unfold discard, commit, WriteBatch_commit_, bind, deref, history, emit, ret.
    rewrite Hthis. simpl. step_done Hthis.
  - (* rollback *)
    unfold discard, rollback, Firestore_request, bind, deref, history, emit, ret.
    rewrite Hthis. simpl. step_done Hthis.
Qed.

Lemma storeAfter_discard {A : Type} (m : M A) (s : Store) :
  storeAfter (discard m s) = storeAfter (m s).
Proof. unfold discard, bind, ret. destruct (m s); reflexivity. Qed.

(** A sequence of calls on an existing attempt. *)
Lemma performAll_emits (this : nat) (calls : list Call) (s : Store) :
  allocated s this →
  ∃ s' t t' evs,
    performAll this calls s = Some s'
    ∧ objects s !! this = Some t
    ∧ objects s' !! this = Some t'
    ∧ trace s' = trace s ++ evs
    ∧ (List.length evs ≤ List.length calls)%nat
    ∧ _requestTag t' = _requestTag t
    ∧ tagsDrawn s' = tagsDrawn s
    ∧ Forall (fun e => eventTag e = None
                       ∨ eventTag e = Some (_requestTag t)) evs
    ∧ (forallb (fun c => negb (isBegin c)) calls = true →
       _transactionId t' = _transactionId t
       ∧ Forall (fun e => eventTransactionId e = None
                          ∨ eventTransactionId e = Some (_transactionId t))
           evs)
    ∧ (forallb isWrite calls = true → evs = []).
Proof.
  revert s. induction calls as [|c calls IH]; intros s Hs.
  - destruct Hs as (t & Hthis & _).
    exists s, t, t, []. simpl. rewrite app_nil_r.
    repeat split; auto.
  - pose proof Hs as (t & Hthis & Hprev).
    destruct (perform_emits this c s t Hthis (fun _ => Hprev))
      as (s1 & t1 & evs1 & Hrun & H1 & Htr1 & Hlen1 & Htag1 & Hid1 & Hkeep1
          & Hw1 & Hdrawn1 & _).
    destruct (perform_extends this c s Hs) as (s1' & Hrun' & Hext).
    assert (s1' = s1) as -> by congruence.
    pose proof (extends_allocated _ _ _ _ Hs Hext) as Hs1.
    destruct Hext as (t0 & t1' & Ht0 & Ht1' & _ & _ & _ & Hrt & _).
    assert (t0 = t) as -> by congruence.
    assert (t1' = t1) as -> by congruence.
    destruct (IH s1 Hs1)
      as (s' & t1'' & t' & evs2 & Hrest & H1'' & H' & Htr2 & Hlen2 & Hrt2
          & Hdrawn2 & Htag2 & Hid2 & Hw2).
    assert (t1'' = t1) as -> by congruence.
    exists s', t, t', (evs1 ++ evs2).
    split; [simpl; rewrite Hrun; exact Hrest|].
    split; [exact Hthis|]. split; [exact H'|].
    split; [rewrite Htr2, Htr1, app_assoc; reflexivity|].
    split; [rewrite length_app; simpl; lia|].
    split; [congruence|]. split; [congruence|].
    split; [|split].
    + apply Forall_app. split; [exact Htag1|].
      rewrite <- Hrt. exact Htag2.
    + simpl. intros Hnb. apply andb_prop in Hnb as [Hc Hcalls].
      apply negb_true_iff in Hc.
      destruct (Hid2 Hcalls) as [Heq HF]. rewrite (Hkeep1 Hc) in Heq, HF.
      split; [exact Heq|]. apply Forall_app. split; assumption.
    + simpl. intros Hws. apply andb_prop in Hws as [Hc Hcalls].
      rewrite (Hw1 Hc), (Hw2 Hcalls). reflexivity.
Qed.

Ltac read_done :=
  eexists _, _; split; [reflexivity|]; simpl;
  split; [reflexivity|]; split; [reflexivity|];
  split; [first [reflexivity | symmetry; apply app_nil_r]|];
  split; [simpl; lia | repeat constructor].

(** X6: reads change no attempt.  On an existing attempt, get and getAll,
    whatever their arguments and whether they return or throw, leave every
    object of the store as it was (no write is buffered, no id stored),
    draw no tag, and send at most one call, made under the attempt's
    current transaction id. *)
Theorem reads_change_no_attempt (s : Store) (this : nat) (t : Transaction)
    (Hthis : objects s !! this = Some t) :
  (∀ refOrQuery, ∃ s' evs,
     storeAfter (get this refOrQuery s) = Some s'
     ∧ objects s' = objects s
     ∧ tagsDrawn s' = tagsDrawn s
     ∧ trace s' = trace s ++ evs
     ∧ (List.length evs ≤ 1)%nat
     ∧ Forall (fun e => eventTransactionId e = Some (_transactionId t)) evs)
  ∧ (∀ arguments, ∃ s' evs,
       storeAfter (getAll this arguments s) = Some s'
       ∧ objects s' = objects s
       ∧ tagsDrawn s' = tagsDrawn s
       ∧ trace s' = trace s ++ evs
       ∧ (List.length evs ≤ 1)%nat
       ∧ Forall (fun e => eventTransactionId e = Some (_transactionId t)) evs).
Proof.
  split.
  - intros refOrQuery. unfold get, bind at 1, deref. rewrite Hthis. simpl.
    destruct (WriteBatchModel.isEmpty (_writeBatch t)) eqn:He; simpl.
    + destruct (is_DocumentReference refOrQuery) eqn:Hd.
      * destruct refOrQuery; try discriminate Hd.
        unfold bind at 1. rewrite (getAll_empty _ _ _ _ Hthis He).
        unfold bind, Validator_isDocumentReference, DocumentGroup_get,
          bind, history, emit, ret. simpl.
        read_done.
      * destruct (is_Query refOrQuery).
        -- unfold Query_get, bind, history, emit, ret. simpl. read_done.
        -- unfold throw. simpl. read_done.
    + unfold throw. simpl. read_done.
  - intros arguments.
    destruct (WriteBatchModel.isEmpty (_writeBatch t)) eqn:He.
    + rewrite (getAll_empty _ _ _ _ Hthis He). unfold bind at 1.
      destruct (validateDocuments_outcome 0 (normalizeDocuments arguments) s)
        as [Hv|[j Hv]]; rewrite Hv.
      * unfold DocumentGroup_get, bind, history, emit, ret. simpl. read_done.
      * simpl. read_done.
    + rewrite (getAll_guard _ _ _ _ Hthis He). simpl. read_done.
Qed.

Lemma reads_change_no_attempt_witness :
  (∀ refOrQuery, ∃ s' evs,
     storeAfter (get 0 refOrQuery Sample.begun) = Some s'
     ∧ objects s' = objects Sample.begun
     ∧ tagsDrawn s' = tagsDrawn Sample.begun
     ∧ trace s' = trace Sample.begun ++ evs
     ∧ (List.length evs ≤ 1)%nat
     ∧ Forall (fun e => eventTransactionId e = Some (Some "tx-1")) evs)
  ∧ (∀ arguments, ∃ s' evs,
       storeAfter (getAll 0 arguments Sample.begun) = Some s'
       ∧ objects s' = objects Sample.begun
       ∧ tagsDrawn s' = tagsDrawn Sample.begun
       ∧ trace s' = trace Sample.begun ++ evs
       ∧ (List.length evs ≤ 1)%nat
       ∧ Forall (fun e => eventTransactionId e = Some (Some "tx-1")) evs).
Proof.
  apply (reads_change_no_attempt Sample.begun 0
           (with_transactionId (Some "tx-1") Sample.attemptA)).
  vm_compute. reflexivity.
Defined.

(** ** Chained writes *)

Lemma write_accepted (s : Store) (this : nat) (t : Transaction)
    (w : WriteCall) :
  objects s !! this = Some t →
  accepted w = true →
  write this w s =
    Returns this
      (mkStore
         (<[this := with_writeBatch
                      (mkWriteBatch (_writes (_writeBatch t)
                                     ++ bufferedBy (callOf w))) t]>
            (objects s))
         (tagSource s) (tagsDrawn s) (trace s)).
Proof.
  intros Hthis Hacc.
  destruct w; simpl in *;
    unfold create, set, update, delete, bind, modify, ret,
      Validator_minNumberOfArguments;
    try (rewrite Hthis; reflexivity).
  apply negb_true_iff in Hacc. rewrite Hacc. simpl. rewrite Hthis. simpl.
  apply Nat.ltb_ge in Hacc.
  pose proof (update_arguments arguments Hacc) as Hargs. simpl in Hargs.
  unfold WriteBatchModel.update. rewrite Hargs. reflexivity.
Qed.

Lemma write_refused (s : Store) (this : nat) (w : WriteCall) :
  accepted w = false →
  write this w s = Throws (TooFewArguments "update" 2) s.
Proof.
  destruct w; simpl; try discriminate.
  intros Hacc. apply negb_false_iff in Hacc.
  unfold update, bind, Validator_minNumberOfArguments. rewrite Hacc.
  reflexivity.
Qed.

(** X7: a chain of writes [t.w1(..).w2(..)...] is carried out on the one
    attempt, each method returning the attempt it was called on.  The chain
    returns that attempt when every write passes its argument check and
    otherwise throws at the first update with fewer than two arguments; in
    both cases the batch has grown by exactly the writes before that point,
    in order, the other objects are untouched and nothing was sent. *)
Theorem chained_writes (s : Store) (this : nat) (t : Transaction)
    (ws : list WriteCall)
    (Hthis : objects s !! this = Some t) :
  ∃ s' t',
    chain this ws s =
      (if forallb accepted ws then Returns this s'
       else Throws (TooFewArguments "update" 2) s')
    ∧ objects s' !! this = Some t'
    ∧ _writes (_writeBatch t') =
        _writes (_writeBatch t) ++ buffered (map callOf (acceptedPrefix ws))
    ∧ trace s' = trace s
    ∧ ∀ a, a ≠ this → objects s' !! a = objects s !! a.
Proof.
  revert s t Hthis. induction ws as [|w ws IH]; intros s t Hthis.
  - exists s, t. simpl. unfold buffered. simpl. rewrite app_nil_r.
    repeat split; auto.
  - simpl. destruct (accepted w) eqn:Hacc; simpl.
    + unfold bind. rewrite (write_accepted _ _ _ _ Hthis Hacc).
      match goal with
      | |- context [chain this ws ?s1] =>
          destruct (IH s1 _ (lookup_insert_eq _ _ _))
            as (s' & t' & Hrun & H' & Hw & Htr & Hother)
      end.
      exists s', t'. split; [exact Hrun|]. split; [exact H'|].
      split; [|split].
      * rewrite Hw. simpl. unfold buffered. simpl.
        rewrite app_assoc. reflexivity.
      * exact Htr.
      * intros a Ha. rewrite (Hother a Ha). simpl.
        apply lookup_insert_ne. congruence.
    + unfold bind. rewrite (write_refused _ _ _ Hacc).
      exists s, t. unfold buffered. simpl. rewrite app_nil_r.
      repeat split; auto.
Qed.

(** [A.create(ref1, data).update(ref1).delete(ref2)]: the update has one
    argument only, so the chain throws there, with the create buffered and
    the delete never reached. *)
Lemma chained_writes_witness :
  let ws := [WCreate Sample.ref1 Sample.data1; WUpdate [Sample.ref1];
             WDelete Sample.ref2 VUndefined] in
  buffered (map callOf (acceptedPrefix ws))
  = [OpCreate Sample.ref1 Sample.data1]
  ∧ ∃ s' t',
    chain 0 ws Sample.constructed =
      (if forallb accepted ws then Returns 0 s'
       else Throws (TooFewArguments "update" 2) s')
    ∧ objects s' !! 0 = Some t'
    ∧ _writes (_writeBatch t') =
        _writes (_writeBatch Sample.attemptA)
        ++ buffered (map callOf (acceptedPrefix ws))
    ∧ trace s' = trace Sample.constructed
    ∧ ∀ a, a ≠ 0 → objects s' !! a = objects Sample.constructed !! a.
Proof.
  intros ws. split; [reflexivity|].
  apply (chained_writes Sample.constructed 0 Sample.attemptA ws).
  vm_compute. reflexivity.
Defined.

(** ** rollback *)

(** X8: rollback sends one rollback request, under the attempt's tag and
    without the retry flag that begin passes, naming the database and the
    attempt's current transaction id (none, if the attempt never began),
    and returns the transport's promise.  It changes no object: the
    buffered writes are neither sent nor dropped, so reads stay refused
    after a rollback exactly as before it. *)
Theorem rollback_keeps_buffered_writes (s : Store) (this : nat)
    (t : Transaction)
    (Hthis : objects s !! this = Some t) :
  let request :=
    RollbackRequest (formattedName (_firestore t)) (_transactionId t) in
  ∃ s',
    rollback this s =
      Returns (requestOutcome (_firestore t) (trace s) "rollback" request) s'
    ∧ trace s' = trace s ++ [EvRequest "rollback" request (_requestTag t) None]
    ∧ objects s' = objects s
    ∧ (∀ refOrQuery,
         get this refOrQuery s' = Throws (Error READ_AFTER_WRITE_ERROR_MSG) s'
         ↔ get this refOrQuery s = Throws (Error READ_AFTER_WRITE_ERROR_MSG) s).
Proof.
  intros request.
  unfold rollback, Firestore_request, bind, deref, history, emit, ret.
  rewrite Hthis. simpl.
  eexists. split; [reflexivity|]. simpl.
  split; [reflexivity|]. split; [reflexivity|].
  intros refOrQuery. split; intros H.
  - destruct (get_throws_guard _ _ _ _ H) as (t0 & Ht0 & Hne).
    simpl in Ht0. eapply get_guard; eassumption.
  - destruct (get_throws_guard _ _ _ _ H) as (t0 & Ht0 & Hne).
    eapply get_guard; [|exact Hne]. exact Ht0.
Qed.

(** A rollback of attempt A after its set, before any begin: the request
    carries no transaction id. *)
Lemma rollback_keeps_buffered_writes_witness :
  let request :=
    RollbackRequest (formattedName Sample.firestore) None in
  ∃ s',
    rollback 0 Sample.afterSet =
      Returns (requestOutcome Sample.firestore (trace Sample.afterSet)
                 "rollback" request) s'
    ∧ trace s' = trace Sample.afterSet
                 ++ [EvRequest "rollback" request "tag-a" None]
    ∧ objects s' = objects Sample.afterSet
    ∧ (∀ refOrQuery,
         get 0 refOrQuery s' = Throws (Error READ_AFTER_WRITE_ERROR_MSG) s'
         ↔ get 0 refOrQuery Sample.afterSet
           = Throws (Error READ_AFTER_WRITE_ERROR_MSG) Sample.afterSet).
Proof.
  apply (rollback_keeps_buffered_writes Sample.afterSet 0
           Sample.attemptA_written).
  vm_compute. reflexivity.
Defined.

(** ** Tags and transaction ids over a run *)

(** X9: the request tag of an attempt never changes, and every request goes
    out under it.  Over any sequence of calls on an existing attempt, the
    [requestTag] accessor returns afterwards what it returned before, no
    tag is drawn from the generator, and every transport request and every
    commit sent by those calls carries that tag. *)
Theorem requests_carry_request_tag (s : Store) (this : nat)
    (calls : list Call)
    (Hthis : allocated s this) :
  ∃ s' tag evs,
    performAll this calls s = Some s'
    ∧ Transaction_requestTag this s = Returns tag s
    ∧ Transaction_requestTag this s' = Returns tag s'
    ∧ tagsDrawn s' = tagsDrawn s
    ∧ trace s' = trace s ++ evs
    ∧ ∀ e tag', e ∈ evs → eventTag e = Some tag' → tag' = tag.
Proof.
  destruct (performAll_emits this calls s Hthis)
    as (s' & t & t' & evs & Hrun & H0 & H' & Htr & _ & Hrt & Hdrawn & Htag & _).
  exists s', (_requestTag t), evs.
  split; [exact Hrun|].
  split; [unfold Transaction_requestTag, bind, deref, ret; rewrite H0;
          reflexivity|].
  split; [unfold Transaction_requestTag, bind, deref, ret; rewrite H', Hrt;
          reflexivity|].
  split; [exact Hdrawn|]. split; [exact Htr|].
  intros e tag' He Hev.
  rewrite Forall_forall in Htag. destruct (Htag e He) as [Hn|Hs]; congruence.
Qed.

Lemma requests_carry_request_tag_witness :
  let calls :=
    [CallBegin; CallGet Sample.ref1; CallSet Sample.ref1 Sample.data1 VUndefined;
     CallCommit; CallRollback] in
  ∃ s' tag evs,
    performAll 0 calls Sample.constructed = Some s'
    ∧ Transaction_requestTag 0 Sample.constructed
      = Returns tag Sample.constructed
    ∧ Transaction_requestTag 0 s' = Returns tag s'
    ∧ tagsDrawn s' = tagsDrawn Sample.constructed
    ∧ trace s' = trace Sample.constructed ++ evs
    ∧ ∀ e tag', e ∈ evs → eventTag e = Some tag' → tag' = tag.
Proof.
  intros calls.
  apply (requests_carry_request_tag Sample.constructed 0 calls).
  exists Sample.attemptA. split.
  - vm_compute. reflexivity.
  - intros previous H. discriminate H.
Defined.

(** X10: only begin changes the transaction id.  Over any sequence of calls
    that contains no begin, the attempt's [_transactionId] is afterwards
    what it was before, and every document-group fetch, query, commit and
    rollback sent by those calls was made under that id. *)
Theorem transaction_id_changes_only_in_begin (s : Store) (this : nat)
    (calls : list Call)
    (Hthis : allocated s this)
    (Hnobegin : forallb (fun c => negb (isBegin c)) calls = true) :
  ∃ s' t t' evs,
    performAll this calls s = Some s'
    ∧ objects s !! this = Some t
    ∧ objects s' !! this = Some t'
    ∧ _transactionId t' = _transactionId t
    ∧ trace s' = trace s ++ evs
    ∧ ∀ e id, e ∈ evs → eventTransactionId e = Some id →
              id = _transactionId t.
Proof.
  destruct (performAll_emits this calls s Hthis)
    as (s' & t & t' & evs & Hrun & H0 & H' & Htr & _ & _ & _ & _ & Hid & _).
  destruct (Hid Hnobegin) as [Heq HF].
  exists s', t, t', evs. repeat split; auto.
  intros e id He Hev.
  rewrite Forall_forall in HF. destruct (HF e He) as [Hn|Hs]; congruence.
Qed.

Lemma transaction_id_changes_only_in_begin_witness :
  let calls :=
    [CallGet Sample.ref1; CallGet (VQuery "q");
     CallSet Sample.ref1 Sample.data1 VUndefined; CallCommit; CallRollback] in
  ∃ s' t t' evs,
    performAll 0 calls Sample.begun = Some s'
    ∧ objects Sample.begun !! 0 = Some t
    ∧ objects s' !! 0 = Some t'
    ∧ _transactionId t' = _transactionId t
    ∧ trace s' = trace Sample.begun ++ evs
    ∧ ∀ e id, e ∈ evs → eventTransactionId e = Some id →
              id = _transactionId t.
Proof.
  intros calls.
  apply (transaction_id_changes_only_in_begin Sample.begun 0 calls).
  - exists (with_transactionId (Some "tx-1") Sample.attemptA). split.
    + vm_compute. reflexivity.
    + intros previous H. discriminate H.
  - reflexivity.
Defined.

(** ** begin followed by other calls *)

(** What begin returns and leaves, by the outcome of its request. *)
Lemma begin_returns (s : Store) (this : nat) (t : Transaction) :
  objects s !! this = Some t →
  (∀ previous, _previousTransaction t = Some previous →
               is_Some (objects s !! previous)) →
  let request :=
    BeginRequest (formattedName (_firestore t)) (beginOptions s t) in
  let sent :=
    trace s ++ [EvRequest "beginTransaction" request (_requestTag t)
                  (Some ALLOW_RETRIES)] in
  begin this s =
    match requestOutcome (_firestore t) (trace s) "beginTransaction" request
    with
    | Resolved resp =>
        Returns (Resolved tt)
          (mkStore (<[this := with_transactionId (transaction resp) t]>
                      (objects s))
                   (tagSource s) (tagsDrawn s) sent)
    | Rejected e =>
        Returns (Rejected e)
          (mkStore (objects s) (tagSource s) (tagsDrawn s) sent)
    end.
Proof.
  intros Hthis Hprev request sent.
  assert (
    (match _previousTransaction t with
     | Some previous =>
         prev <- deref previous ;;
         ret (Some (mkTransactionOptions (_transactionId prev)))
     | None => ret None
     end) s = Returns (beginOptions s t) s) as Hopt.
  { unfold beginOptions.
    destruct (_previousTransaction t) as [previous|]; [|reflexivity].
    destruct (Hprev previous eq_refl) as [P HP].
    unfold bind, deref, ret. rewrite HP. reflexivity. }
  unfold begin. unfold bind at 1. unfold deref at 1. rewrite Hthis.
  unfold bind at 1. rewrite Hopt.
  unfold Firestore_request, bind, history, emit, ret. simpl.
  fold request.
  destruct (requestOutcome (_firestore t) (trace s) "beginTransaction" request)
    as [resp|e]; simpl.
  - unfold modify. simpl. rewrite Hthis. reflexivity.
  - reflexivity.
Qed.

(** X11: after a begin whose request resolved, everything the attempt does
    is done under the id of the response.  Following such a begin with any
    sequence of calls that contains no further begin, every document-group
    fetch, query, commit and rollback of that sequence carries the
    response's transaction id, whatever id the attempt held before. *)
Theorem begin_scopes_later_calls (s : Store) (this : nat) (t : Transaction)
    (resp : Response) (calls : list Call)
    (Hthis : objects s !! this = Some t)
    (Hprevious : ∀ previous, _previousTransaction t = Some previous →
                             is_Some (objects s !! previous))
    (Hresolved :
       requestOutcome (_firestore t) (trace s) "beginTransaction"
         (BeginRequest (formattedName (_firestore t)) (beginOptions s t))
       = Resolved resp)
    (Hnobegin : forallb (fun c => negb (isBegin c)) calls = true) :
  ∃ s1 s2 evs,
    begin this s = Returns (Resolved tt) s1
    ∧ performAll this calls s1 = Some s2
    ∧ trace s2 = trace s1 ++ evs
    ∧ ∀ e id, e ∈ evs → eventTransactionId e = Some id →
              id = transaction resp.
Proof.
  pose proof (begin_returns s this t Hthis Hprevious) as Hbegin.
  simpl in Hbegin. rewrite Hresolved in Hbegin.
  match type of Hbegin with
  | _ = Returns _ ?st => set (s1 := st) in *
  end.
  assert (allocated s1 this) as Halloc.
  { eexists. split; [apply lookup_insert_eq|]. simpl.
    intros previous Hp. destruct (Hprevious previous Hp) as [P HP].
    destruct (decide (previous = this)) as [->|Hne].
    - rewrite lookup_insert_eq. eauto.
    - rewrite lookup_insert_ne by congruence. eauto. }
  destruct (performAll_emits this calls s1 Halloc)
    as (s2 & t1 & t2 & evs & Hrun & H1 & _ & Htr & _ & _ & _ & _ & Hid & _).
  destruct (Hid Hnobegin) as [_ HF].
  unfold s1 in H1. simpl in H1. rewrite lookup_insert_eq in H1.
  injection H1 as <-. simpl in HF.
  exists s1, s2, evs. split; [exact Hbegin|]. split; [exact Hrun|].
  split; [exact Htr|].
  intros e id He Hev.
  rewrite Forall_forall in HF. destruct (HF e He) as [Hn|Hs]; congruence.
Qed.

(** Attempt A: begin, then two reads, a set, and the commit. *)
Lemma begin_scopes_later_calls_witness :
  let calls :=
    [CallGet Sample.ref1; CallGetAll [Sample.ref1; Sample.ref2];
     CallSet Sample.ref1 Sample.data1 VUndefined; CallCommit] in
  ∃ s1 s2 evs,
    begin 0 Sample.constructed = Returns (Resolved tt) s1
    ∧ performAll 0 calls s1 = Some s2
    ∧ trace s2 = trace s1 ++ evs
    ∧ ∀ e id, e ∈ evs → eventTransactionId e = Some id →
              id = transaction (mkResponse (Some "tx-1")).
Proof.
  intros calls.
  apply (begin_scopes_later_calls Sample.constructed 0 Sample.attemptA
           (mkResponse (Some "tx-1")) calls).
  - vm_compute. reflexivity.
  - intros previous H. discriminate H.
  - reflexivity.
  - reflexivity.
Defined.

(** ** Retries *)

Lemma new_Transaction_from (firestore : Firestore) (s : Store)
    (previous : nat) (P : Transaction) :
  objects s !! previous = Some P →
  ∃ this s',
    new_Transaction firestore (Some previous) s = Returns this s'
    ∧ this ≠ previous
    ∧ objects s !! this = None
    ∧ objects s' =
        <[this := {| _firestore := firestore;
                     _previousTransaction := Some previous;
                     _writeBatch := WriteBatchModel.empty;
                     _requestTag := _requestTag P;
                     _transactionId := None |}]> (objects s)
    ∧ trace s' = trace s
    ∧ tagSource s' = tagSource s
    ∧ tagsDrawn s' = tagsDrawn s.
Proof.
  intros HP.
  destruct (new_Transaction firestore (Some previous) s) as [this s'| |]
    eqn:Hnew.
  - destruct (new_Transaction_returns _ _ _ _ _ Hnew)
      as (tag & Hnone & Hobj & Htr & Hsrc & P' & HP' & Htag & Hdrawn).
    assert (P' = P) as -> by congruence. subst tag.
    exists this, s'. split; [reflexivity|].
    split; [intros ->; congruence|].
    repeat split; auto.
  - exfalso. revert Hnew.
    unfold new_Transaction, Transaction_requestTag, bind, deref, ret, alloc.
    rewrite HP. discriminate.
  - exfalso. revert Hnew.
    unfold new_Transaction, Transaction_requestTag, bind, deref, ret, alloc.
    rewrite HP. discriminate.
Qed.

(** X12: a chain of retries shares one request tag.  Constructing n
    attempts, each from the one before, starting from an existing attempt
    P, draws no tag from the generator and sends nothing; the last attempt
    carries P's tag, every object that existed before is unchanged, and
    (for n > 0) the last attempt is a new object with an empty batch and
    no transaction id. *)
Theorem retry_chain_shares_tag (firestore : Firestore) (n : nat) (s : Store)
    (previous : nat) (P : Transaction)
    (Hprevious : objects s !! previous = Some P) :
  ∃ last T s',
    retries firestore n previous s = Returns last s'
    ∧ objects s' !! last = Some T
    ∧ _requestTag T = _requestTag P
    ∧ tagsDrawn s' = tagsDrawn s
    ∧ trace s' = trace s
    ∧ (∀ a X, objects s !! a = Some X → objects s' !! a = Some X)
    ∧ ((0 < n)%nat →
       objects s !! last = None
       ∧ _writes (_writeBatch T) = []
       ∧ _transactionId T = None).
Proof.
  revert s previous P Hprevious.
  induction n as [|n IH]; intros s previous P Hprevious.
  - exists previous, P, s. simpl. unfold ret.
    repeat split; auto; lia.
  - destruct (new_Transaction_from firestore s previous P Hprevious)
      as (next & s1 & Hnew & Hne & Hnone & Hobj & Htr & Hsrc & Hdrawn).
    assert (∀ a X, objects s !! a = Some X → objects s1 !! a = Some X)
      as Hkeep1.
    { intros a X Ha. rewrite Hobj. rewrite lookup_insert_ne by congruence.
      exact Ha. }
    assert (objects s1 !! next = Some
              {| _firestore := firestore;
                 _previousTransaction := Some previous;
                 _writeBatch := WriteBatchModel.empty;
                 _requestTag := _requestTag P;
                 _transactionId := None |}) as Hnext.
    { rewrite Hobj. apply lookup_insert_eq. }
    destruct (IH s1 next _ Hnext)
      as (last & T & s' & Hrun & Hlast & Htag & Hdrawn' & Htr' & Hkeep & Hnew').
    exists last, T, s'.
    split; [simpl; unfold bind; rewrite Hnew; exact Hrun|].
    split; [exact Hlast|]. split; [exact Htag|].
    split; [congruence|]. split; [congruence|].
    split; [intros a X Ha; apply Hkeep, Hkeep1, Ha|].
    intros _. destruct n as [|n].
    + simpl in Hrun. unfold ret in Hrun. injection Hrun as <- <-.
      rewrite Hnext in Hlast. injection Hlast as <-.
      repeat split; auto.
    + destruct (Hnew' ltac:(lia)) as (Hfresh & Hw & Hid).
      repeat split; auto.
      destruct (objects s !! last) as [X|] eqn:HX; [|reflexivity].
      rewrite (Hkeep1 _ _ HX) in Hfresh. discriminate Hfresh.
Qed.

(** Three successive retries of attempt A after its set. *)
Lemma retry_chain_shares_tag_witness :
  ∃ last T s',
    retries Sample.firestore 3 0 Sample.afterSet = Returns last s'
    ∧ objects s' !! last = Some T
    ∧ _requestTag T = _requestTag Sample.attemptA_written
    ∧ tagsDrawn s' = tagsDrawn Sample.afterSet
    ∧ trace s' = trace Sample.afterSet
    ∧ (∀ a X, objects Sample.afterSet !! a = Some X →
              objects s' !! a = Some X)
    ∧ ((0 < 3)%nat →
       objects Sample.afterSet !! last = None
       ∧ _writes (_writeBatch T) = []
       ∧ _transactionId T = None).
Proof.
  apply (retry_chain_shares_tag Sample.firestore 3 Sample.afterSet 0
           Sample.attemptA_written).
  vm_compute. reflexivity.
Defined.

(** X13: the retry marker is read when begin runs, not when the retry is
    constructed.  If B is constructed from A and A's begin resolves only
    afterwards, B's begin still sends the id that A obtained: B refers to
    the attempt A itself, not to a copy of its state at construction. *)
Theorem retry_marker_read_at_begin (firestore : Firestore) (s : Store)
    (a : nat) (A : Transaction) (resp : Response)
    (HA : objects s !! a = Some A)
    (Hprevious : ∀ previous, _previousTransaction A = Some previous →
                             is_Some (objects s !! previous))
    (Hresolved :
       requestOutcome (_firestore A) (trace s) "beginTransaction"
         (BeginRequest (formattedName (_firestore A)) (beginOptions s A))
       = Resolved resp) :
  ∃ b s1 s2 p s3,
    new_Transaction firestore (Some a) s = Returns b s1
    ∧ begin a s1 = Returns (Resolved tt) s2
    ∧ begin b s2 = Returns p s3
    ∧ trace s3 =
        trace s2
        ++ [EvRequest "beginTransaction"
              (BeginRequest (formattedName firestore)
                 (Some (mkTransactionOptions (transaction resp))))
              (_requestTag A) (Some true)].
Proof.
  destruct (new_Transaction_from firestore s a A HA)
    as (b & s1 & Hnew & Hne & Hnone & Hobj & Htr & Hsrc & Hdrawn).
  assert (objects s1 !! a = Some A) as HA1.
  { rewrite Hobj, lookup_insert_ne by congruence. exact HA. }
  assert (∀ previous, _previousTransaction A = Some previous →
                      is_Some (objects s1 !! previous)) as Hprev1.
  { intros previous Hp. destruct (Hprevious previous Hp) as [P HP].
    rewrite Hobj, lookup_insert_ne by congruence. eauto. }
  assert (beginOptions s1 A = beginOptions s A) as Hopts.
  { unfold beginOptions. destruct (_previousTransaction A) as [previous|];
      [|reflexivity].
    destruct (Hprevious previous eq_refl) as [P HP].
    rewrite Hobj, lookup_insert_ne by congruence. reflexivity. }
  pose proof (begin_returns s1 a A HA1 Hprev1) as Hbegin.
  simpl in Hbegin. rewrite Hopts, Htr, Hresolved in Hbegin.
  match type of Hbegin with
  | _ = Returns _ ?st => set (s2 := st) in *
  end.
  set (B := {| _firestore := firestore;
               _previousTransaction := Some a;
               _writeBatch := WriteBatchModel.empty;
               _requestTag := _requestTag A;
               _transactionId := None |}).
  assert (objects s2 !! b = Some B) as HB.
  { unfold s2. simpl. rewrite lookup_insert_ne by congruence.
    rewrite Hobj. apply lookup_insert_eq. }
  assert (objects s2 !! a = Some (with_transactionId (transaction resp) A))
    as HA2.
  { unfold s2. simpl. apply lookup_insert_eq. }
  assert (∀ previous, _previousTransaction B = Some previous →
                      is_Some (objects s2 !! previous)) as HprevB.
  { intros previous Hp.
    assert (previous = a) as -> by (unfold B in Hp; simpl in Hp; congruence).
    rewrite HA2. eauto. }
  pose proof (begin_returns s2 b B HB HprevB) as HbeginB.
  simpl in HbeginB.
  assert (beginOptions s2 B = Some (mkTransactionOptions (transaction resp)))
    as HoptsB.
  { unfold beginOptions. change (_previousTransaction B) with (Some a).
    cbv beta iota. rewrite HA2. reflexivity. }
  rewrite HoptsB in HbeginB.
  exists b, s1, s2.
  match type of HbeginB with
  | _ = match ?outcome with _ => _ end => destruct outcome as [respB|e]
  end; eexists _, _;
    (split; [exact Hnew|]); (split; [exact Hbegin|]);
    (split; [exact HbeginB|]); reflexivity.
Qed.

(** B is constructed from the new attempt A, which has no id yet; A then
    begins and obtains tx-1; B's begin sends tx-1. *)
Lemma retry_marker_read_at_begin_witness :
  ∃ b s1 s2 p s3,
    new_Transaction Sample.firestore (Some 0) Sample.constructed
    = Returns b s1
    ∧ begin 0 s1 = Returns (Resolved tt) s2
    ∧ begin b s2 = Returns p s3
    ∧ trace s3 =
        trace s2
        ++ [EvRequest "beginTransaction"
              (BeginRequest (formattedName Sample.firestore)
                 (Some (mkTransactionOptions
                          (transaction (mkResponse (Some "tx-1"))))))
              (_requestTag Sample.attemptA) (Some true)].
Proof.
  apply (retry_marker_read_at_begin Sample.firestore Sample.constructed 0
           Sample.attemptA (mkResponse (Some "tx-1"))).
  - vm_compute. reflexivity.
  - intros previous H. discriminate H.
  - reflexivity.
Defined.
